(* ===================================================================== *)
(*  Checkers session server (server.js): rules engine, room registry and *)
(*  socket handlers, embedded as Rocq functions and verified.            *)
(*                                                                       *)
(*  Numbers of the board and coordinates are integers (Z); a function    *)
(*  that can throw returns [res]; applyMove, which mutates the game      *)
(*  state object and can throw half-way, is a state-and-exception        *)
(*  computation; a handler is a function on the registry, run up to the  *)
(*  point where it returns or suspends.                                  *)
(* ===================================================================== *)

From Stdlib Require Import ZArith Bool Ascii String List Lia.
From stdpp Require Import gmap strings list fin_maps.

Local Open Scope Z_scope.

(* --------------------------------------------------------------------- *)
(*  JavaScript values and exceptions                                     *)
(* --------------------------------------------------------------------- *)

(** What a handler can throw: the engine's own [TypeError] (indexing
    [undefined]) or [new Error(message)]. *)
Inductive exn : Type :=
| TypeError
| Error (message : string).

(** Result of an expression that may throw. *)
Inductive res (A : Type) : Type :=
| Ok (a : A)
| Throw (e : exn).
Arguments Ok {A} a.
Arguments Throw {A} e.

Definition res_bind {A B} (x : res A) (k : A -> res B) : res B :=
  match x with
  | Ok a => k a
  | Throw e => Throw e
  end.

Notation "x <- e1 ;; e2" := (res_bind e1 (fun x => e2))
  (at level 100, e1 at next level, right associativity).

Fixpoint foldM {A B} (f : A -> B -> res A) (acc : A) (l : list B) : res A :=
  match l with
  | [] => Ok acc
  | x :: l' => acc' <- f acc x ;; foldM f acc' l'
  end.

(** The content of an array slot: a number, or [None] for [undefined]
    (a hole, or an index the array does not have). *)
Definition truthy (v : option Z) : bool :=
  match v with
  | Some n => negb (n =? 0)
  | None => false
  end.

(** [v === n] for a numeric literal [n]. *)
Definition is_num (v : option Z) (n : Z) : bool :=
  match v with
  | Some k => k =? n
  | None => false
  end.

(* --------------------------------------------------------------------- *)
(*  Board                                                                *)
(* --------------------------------------------------------------------- *)

(** A board is an array of row arrays.  The code only ever indexes them
    ([board[r][c]], never [.length]), so an array is the finite map from
    its indices to its numbers.  Cell codes, from createInitialBoard:
    0 empty, 1 / 2 men of player 1 / 2, 3 / 4 their kings. *)

(** [board[r][c]]: a missing row makes [board[r]] undefined and the
    column access throws; a missing column reads [undefined]. *)
Definition readCell (b : gmap Z (gmap Z Z)) (r c : Z) : res (option Z) :=
  match b !! r with
  | None => Throw TypeError
  | Some cells => Ok (cells !! c)
  end.

(** [board[r][c] = v]: throws on a missing row; otherwise the row gets
    the index [c], inside or outside 0..7. *)
Definition writeCell (b : gmap Z (gmap Z Z)) (r c : Z) (v : option Z)
  : res (gmap Z (gmap Z Z)) :=
  match b !! r with
  | None => Throw TypeError
  | Some cells => Ok (<[r := partial_alter (fun _ => v) c cells]> b)
  end.

(** Total view of a cell, for stating properties. *)
Definition cell (b : gmap Z (gmap Z Z)) (r c : Z) : option Z :=
  b !! r ≫= (fun cells => cells !! c).

Definition in_grid (p : Z * Z) : Prop :=
  0 <= fst p <= 7 /\ 0 <= snd p <= 7.

Definition emptyRow : gmap Z Z :=
  foldl (fun cells c => <[c := 0]> cells) ∅ (seqZ 0 8).

Definition fillRow (v r : Z) (cells : gmap Z Z) : gmap Z Z :=
  foldl (fun cells c => if (r + c) mod 2 =? 1 then <[c := v]> cells else cells)
        cells (seqZ 0 8).

Definition createInitialBoard : gmap Z (gmap Z Z) :=
  let board := foldl (fun b r => <[r := emptyRow]> b) ∅ (seqZ 0 8) in
  let board := foldl (fun b r => alter (fillRow 2 r) r b) board (seqZ 0 3) in
  let board := foldl (fun b r => alter (fillRow 1 r) r b) board (seqZ 5 3) in
  board.

Record GameState : Type := mkGameState {
  board : gmap Z (gmap Z Z);
  currentTurn : Z;
  winner : option Z;
  mustJumpFrom : option (Z * Z)
}.

Definition createGameState : GameState :=
  {| board := createInitialBoard;
     currentTurn := 1;
     winner := None;
     mustJumpFrom := None |}.

(* --------------------------------------------------------------------- *)
(*  Rules engine                                                         *)
(* --------------------------------------------------------------------- *)

Record Move : Type := mkMove {
  from : Z * Z;
  to : Z * Z;
  captured : option (Z * Z)
}.

Definition isCapture (m : Move) : bool :=
  match captured m with Some _ => true | None => false end.

(** [piece === 1 || piece === 3 ? 1 : 2] *)
Definition playerOf (piece : Z) : Z :=
  if (piece =? 1) || (piece =? 3) then 1 else 2.

Definition isKing (piece : Z) : bool := (piece =? 3) || (piece =? 4).

Definition directions (player : Z) (king : bool) : list (Z * Z) :=
  (if (player =? 1) || king then [(-1, -1); (-1, 1)] else []) ++
  (if (player =? 2) || king then [(1, -1); (1, 1)] else []).

Definition isEnemy (player : Z) (target : option Z) : bool :=
  truthy target &&
  (((player =? 1) && (is_num target 2 || is_num target 4)) ||
   ((player =? 2) && (is_num target 1 || is_num target 3))).

(** One iteration of the direction loop of getValidMoves, on the pair of
    accumulators (jumps, moves). *)
Definition scanDirection (b : gmap Z (gmap Z Z)) (row col : Z)
    (mjf : option (Z * Z)) (player : Z)
    (acc : list Move * list Move) (d : Z * Z) : res (list Move * list Move) :=
  let nr := row + fst d in
  let nc := col + snd d in
  if (nr <? 0) || (7 <? nr) || (nc <? 0) || (7 <? nc) then Ok acc
  else
    target <- readCell b nr nc ;;
    if isEnemy player target then
      let jr := row + 2 * fst d in
      let jc := col + 2 * snd d in
      if (0 <=? jr) && (jr <=? 7) && (0 <=? jc) && (jc <=? 7) then
        landing <- readCell b jr jc ;;
        if negb (truthy landing)
        then Ok (fst acc ++ [mkMove (row, col) (jr, jc) (Some (nr, nc))], snd acc)
        else Ok acc
      else Ok acc
    else if negb (truthy target) && negb (bool_decide (is_Some mjf))
    then Ok (fst acc, snd acc ++ [mkMove (row, col) (nr, nc) None])
    else Ok acc.

Definition getValidMoves (b : gmap Z (gmap Z Z)) (row col : Z)
    (mjf : option (Z * Z)) : res (list Move) :=
  piece <- readCell b row col ;;
  match piece with
  | None => Ok []
  | Some pc =>
    if pc =? 0 then Ok []
    else
      let player := playerOf pc in
      acc <- foldM (scanDirection b row col mjf player) ([], [])
                   (directions player (isKing pc)) ;;
      match mjf with
      | Some p =>
        if (fst p =? row) && (snd p =? col) then Ok (fst acc) else Ok []
      | None =>
        Ok (if (0 <? Z.of_nat (length (fst acc))) then fst acc else snd acc)
      end
  end.

(** Body of the inner loop of getAllValidMoves at cell (r, c). *)
Definition collectCell (b : gmap Z (gmap Z Z)) (player : Z)
    (mjf : option (Z * Z)) (r : Z) (all : list Move) (c : Z) : res (list Move) :=
  piece <- readCell b r c ;;
  match piece with
  | None => Ok all
  | Some pc =>
    if pc =? 0 then Ok all
    else if negb (playerOf pc =? player) then Ok all
    else ms <- getValidMoves b r c mjf ;; Ok (all ++ ms)
  end.

Definition collectAll (b : gmap Z (gmap Z Z)) (player : Z)
    (mjf : option (Z * Z)) : res (list Move) :=
  foldM (fun all r => foldM (collectCell b player mjf r) all (seqZ 0 8))
        [] (seqZ 0 8).

Definition getAllValidMoves (b : gmap Z (gmap Z Z)) (player : Z)
    (mjf : option (Z * Z)) : res (list Move) :=
  all <- collectAll b player mjf ;;
  let jumps := List.filter isCapture all in
  Ok (if (0 <? Z.of_nat (length jumps)) then jumps else all).


(* --------------------------------------------------------------------- *)
(*  applyMove: in-place mutation of the game state, with exceptions       *)
(* --------------------------------------------------------------------- *)

(** A computation on the game-state object: it returns the object as it
    is when the computation finishes or throws, so that a mutation made
    before an exception stays visible. *)
Definition M (A : Type) : Type := GameState -> GameState * res A.

Definition ret {A} (a : A) : M A := fun gs => (gs, Ok a).

Definition bind {A B} (x : M A) (k : A -> M B) : M B :=
  fun gs =>
    match x gs with
    | (gs', Ok a) => k a gs'
    | (gs', Throw e) => (gs', Throw e)
    end.

Notation "x <~ e1 ;; e2" := (bind e1 (fun x => e2))
  (at level 100, e1 at next level, right associativity).
Notation "e1 ;;; e2" := (bind e1 (fun _ => e2))
  (at level 100, right associativity).

Definition set_board (b : gmap Z (gmap Z Z)) (gs : GameState) : GameState :=
  mkGameState b (currentTurn gs) (winner gs) (mustJumpFrom gs).
Definition set_currentTurn (t : Z) (gs : GameState) : GameState :=
  mkGameState (board gs) t (winner gs) (mustJumpFrom gs).
Definition set_winner (w : option Z) (gs : GameState) : GameState :=
  mkGameState (board gs) (currentTurn gs) w (mustJumpFrom gs).
Definition set_mustJumpFrom (p : option (Z * Z)) (gs : GameState) : GameState :=
  mkGameState (board gs) (currentTurn gs) (winner gs) p.

Definition getCell (r c : Z) : M (option Z) :=
  fun gs => (gs, readCell (board gs) r c).

Definition setCell (r c : Z) (v : option Z) : M unit :=
  fun gs =>
    match writeCell (board gs) r c v with
    | Ok b' => (set_board b' gs, Ok tt)
    | Throw e => (gs, Throw e)
    end.

Definition reads {A} (f : GameState -> res A) : M A := fun gs => (gs, f gs).

Definition modify (f : GameState -> GameState) : M unit :=
  fun gs => (f gs, Ok tt).

(** [piece === 1 && tr === 0] gives 3, [piece === 2 && tr === 7] gives 4. *)
Definition promote (piece : option Z) (tr : Z) : option Z :=
  let newPiece := if is_num piece 1 && (tr =? 0) then Some 3 else piece in
  if is_num piece 2 && (tr =? 7) then Some 4 else newPiece.

(** [newPiece === piece] *)
Definition same_value (v w : option Z) : bool := bool_decide (v = w).

Definition otherPlayer (p : Z) : Z := if p =? 1 then 2 else 1.

Definition applyMove (move : Move) : M unit :=
  let fr := fst (from move) in
  let fc := snd (from move) in
  let tr := fst (to move) in
  let tc := snd (to move) in
  piece <~ getCell fr fc ;;
  setCell fr fc (Some 0) ;;;
  match captured move with
  | Some cap => setCell (fst cap) (snd cap) (Some 0)
  | None => ret tt
  end ;;;
  let newPiece := promote piece tr in
  setCell tr tc newPiece ;;;
  mjf <~ (if isCapture move && same_value newPiece piece then
            further <~ reads (fun gs => getValidMoves (board gs) tr tc (Some (tr, tc))) ;;
            ret (if 0 <? Z.of_nat (length (List.filter isCapture further))
                 then Some (tr, tc) else None)
          else ret None) ;;
  match mjf with
  | None =>
    modify (fun gs => set_mustJumpFrom None
                        (set_currentTurn (otherPlayer (currentTurn gs)) gs))
  | Some p => modify (set_mustJumpFrom (Some p))
  end ;;;
  allMoves <~ reads (fun gs =>
                getAllValidMoves (board gs) (currentTurn gs) (mustJumpFrom gs)) ;;
  if (Z.of_nat (length allMoves) =? 0)
  then modify (fun gs => set_winner (Some (otherPlayer (currentTurn gs))) gs)
  else ret tt.


(* --------------------------------------------------------------------- *)
(*  Rooms, sockets and the handlers                                      *)
(* --------------------------------------------------------------------- *)

(** The registry [rooms] is a plain object used as a map from token to
    room object: the finite map of the properties the server put there,
    on top of what every plain object inherits from Object.prototype (see
    [getRoom]).  The handlers that index it with [socket.roomId] only
    ever meet a token the server generated or found a room under; the
    join request indexes it with a string the client chose.  A room's
    [rematchVotes] is a Set of socket ids. *)

Record Room : Type := mkRoom {
  players : list string;
  gameState : option GameState;
  rematchVotes : gset string
}.

(** The fields the server keeps on a socket object. *)
Record Socket : Type := mkSocket {
  id : string;
  roomId : option string;
  playerIndex : option Z
}.

(** [rooms[k]] with [k] possibly undefined: the property key is the
    string the value converts to. *)
Definition keyOf (k : option string) : string :=
  match k with
  | Some s => s
  | None => "undefined"
  end.

Inductive target : Type :=
| ToSocket (sid : string)
| ToRoom (rid : option string).

Inductive payload : Type :=
| NoPayload
| RoomInfo (rid : string) (idx : Z)
| Votes (n : nat)
| Game (gs : option GameState) (ps : list string)
| Update (gs : GameState)
| Failure (e : exn).

Record emission : Type := Emit {
  em_target : target;
  em_event : string;
  em_payload : payload
}.

Definition toUpperChar (c : ascii) : ascii :=
  let n := nat_of_ascii c in
  if ((97 <=? n) && (n <=? 122))%nat then ascii_of_nat (n - 32) else c.

Fixpoint toUpperCase (s : string) : string :=
  match s with
  | EmptyString => EmptyString
  | String c s' => String (toUpperChar c) (toUpperCase s')
  end.

(** generateRoomId, as a function of the string [rnd] that
    [Math.random().toString(36)] evaluates to in this call. *)
Definition generateRoomId (rnd : string) : string :=
  toUpperCase (substring 2 6 rnd).

(** createRoom: returns the registry, the socket and the token. *)
Definition createRoom (rnd : string) (socket : Socket)
    (rooms : gmap string Room) : gmap string Room * Socket * string :=
  let rid := generateRoomId rnd in
  (<[rid := mkRoom [id socket] None ∅]> rooms,
   mkSocket (id socket) (Some rid) (Some 1),
   rid).

(** The names every plain object inherits from Object.prototype.  Read
    as a property, each of them is a function, or for [__proto__] the
    prototype object itself: truthy, and without a [players] property. *)
Definition objectPrototypeNames : list string :=
  [ "constructor"; "__defineGetter__"; "__defineSetter__"; "hasOwnProperty";
    "__lookupGetter__"; "__lookupSetter__"; "isPrototypeOf";
    "propertyIsEnumerable"; "toString"; "valueOf"; "__proto__";
    "toLocaleString" ]%string.

Definition inheritedName (key : string) : bool :=
  existsb (String.eqb key) objectPrototypeNames.

(** What [rooms[key]] evaluates to: a room the server stored under the
    key, else the inherited value of the key, else [undefined]. *)
Inductive property : Type :=
| OwnRoom (room : Room)
| Inherited
| Undefined.

Definition getRoom (rooms : gmap string Room) (key : string) : property :=
  match rooms !! key with
  | Some room => OwnRoom room
  | None => if inheritedName key then Inherited else Undefined
  end.

(** joinRoom: every throw comes before any mutation.  An inherited value
    passes [if (!room)], and [room.players.length] then reads [length] of
    [undefined]. *)
Definition joinRoom (socket : Socket) (rid : option string)
    (rooms : gmap string Room) : res (gmap string Room * Socket * Room) :=
  match getRoom rooms (keyOf rid) with
  | Undefined => Throw (Error "Room not found")
  | Inherited => Throw TypeError
  | OwnRoom room =>
    if (2 <=? length (players room))%nat then Throw (Error "Room is full")
    else
      let room' := mkRoom (players room ++ [id socket])
                          (Some createGameState) (rematchVotes room) in
      Ok (<[keyOf rid := room']> rooms,
          mkSocket (id socket) rid (Some 2),
          room')
  end.

(** What is left of an async function at its [await delay(ms)]: the wait
    and the emission made when it resumes. *)
Record suspended : Type := Suspend {
  su_delay : Z;
  su_room : string
}.

(** The part of processRematchVote after [await delay(300)]: it emits
    gameStart with the room object's state at that time, and writes
    nothing. *)
Definition resumeRematch (k : suspended) (room : Room)
    (rooms : gmap string Room) : gmap string Room * list emission :=
  (rooms,
   [Emit (ToRoom (Some (su_room k))) "gameStart"
         (Game (gameState room) (players room))]).

Definition addVote (sid : string) (room : Room) : Room :=
  mkRoom (players room) (gameState room) ({[sid]} ∪ rematchVotes room).

Definition resetGame (room : Room) : Room :=
  mkRoom (players room) (Some createGameState) (rematchVotes room).

Definition clearVotes (room : Room) : Room :=
  mkRoom (players room) (gameState room) ∅.

(** processRematchVote up to its first suspension point, which is what
    runs without any other handler in between: the registry when it
    throws, returns or suspends, what it emitted, and how it ended. *)
Definition processRematchVote (socket : Socket) (rooms : gmap string Room)
  : gmap string Room * list emission * res (option suspended) :=
  match rooms !! keyOf (roomId socket) with
  | None => (rooms, [], Throw (Error "Room not found"))
  | Some room =>
    let room := addVote (id socket) room in
    let out := [Emit (ToRoom (roomId socket)) "rematchVoteUpdate"
                     (Votes (size (rematchVotes room)))] in
    if (2 <=? size (rematchVotes room))%nat then
      let room := resetGame room in
      let room := clearVotes room in
      (<[keyOf (roomId socket) := room]> rooms, out,
       Ok (Some (Suspend 300 (keyOf (roomId socket)))))
    else
      (<[keyOf (roomId socket) := room]> rooms, out, Ok None)
  end.

(** The test of the makeMove handler: same origin and destination. *)
Definition sameSquares (m move : Move) : bool :=
  (fst (from m) =? fst (from move)) && (snd (from m) =? snd (from move)) &&
  (fst (to m) =? fst (to move)) && (snd (to m) =? snd (to move)).

(** The makeMove handler; its try/catch turns an exception into an
    emission and keeps whatever was written before it. *)
Definition makeMove (socket : Socket) (move : Move)
    (rooms : gmap string Room) : gmap string Room * list emission :=
  match rooms !! keyOf (roomId socket) with
  | None => (rooms, [])
  | Some room =>
    match gameState room with
    | None => (rooms, [])
    | Some gs =>
      if truthy (winner gs) then (rooms, [])
      else
        match playerIndex socket with
        | None => (rooms, [])
        | Some idx =>
          if negb (currentTurn gs =? idx) then (rooms, [])
          else
            match getAllValidMoves (board gs) idx (mustJumpFrom gs) with
            | Throw e => (rooms, [Emit (ToSocket (id socket)) "error" (Failure e)])
            | Ok valid =>
              if negb (existsb (fun m => sameSquares m move) valid)
              then (rooms, [Emit (ToSocket (id socket)) "invalidMove" NoPayload])
              else
                let gs' := fst (applyMove move gs) in
                let rooms' :=
                  <[keyOf (roomId socket) :=
                      mkRoom (players room) (Some gs') (rematchVotes room)]> rooms in
                match snd (applyMove move gs) with
                | Ok _ =>
                  (rooms', [Emit (ToRoom (roomId socket)) "gameStateUpdate" (Update gs')])
                | Throw e =>
                  (rooms', [Emit (ToSocket (id socket)) "error" (Failure e)])
                end
            end
        end
    end
  end.

(** The disconnect handler. *)
Definition disconnect (socket : Socket) (rooms : gmap string Room)
  : gmap string Room * list emission :=
  match roomId socket with
  | None => (rooms, [])
  | Some rid =>
    if negb (String.eqb rid "") && bool_decide (is_Some (rooms !! rid))
    then (delete rid rooms, [Emit (ToRoom (Some rid)) "opponentDisconnected" NoPayload])
    else (rooms, [])
  end.

(* --------------------------------------------------------------------- *)
(*  The server as a transition system over incoming events               *)
(* --------------------------------------------------------------------- *)

Record Server : Type := mkServer {
  srv_rooms : gmap string Room;
  srv_sockets : gmap string Socket
}.

Inductive event : Type :=
| Connection (sid : string)
| CreateRoomMsg (sid : string) (rnd : string)
| JoinRoomMsg (sid : string) (rid : option string)
| MakeMoveMsg (sid : string) (move : Move)
| RematchVoteMsg (sid : string)
| DisconnectMsg (sid : string).

(** One event, handled up to the point where its handler returns or
    suspends; the state changes of every handler happen before that. *)
Definition step (s : Server) (e : event) : Server :=
  match e with
  | Connection sid =>
    mkServer (srv_rooms s) (<[sid := mkSocket sid None None]> (srv_sockets s))
  | CreateRoomMsg sid rnd =>
    match srv_sockets s !! sid with
    | None => s
    | Some socket =>
      let '(rooms, socket', _) := createRoom rnd socket (srv_rooms s) in
      mkServer rooms (<[sid := socket']> (srv_sockets s))
    end
  | JoinRoomMsg sid rid =>
    match srv_sockets s !! sid with
    | None => s
    | Some socket =>
      match joinRoom socket rid (srv_rooms s) with
      | Ok (rooms, socket', _) =>
        mkServer rooms (<[sid := socket']> (srv_sockets s))
      | Throw _ => s
      end
    end
  | MakeMoveMsg sid move =>
    match srv_sockets s !! sid with
    | None => s
    | Some socket =>
      mkServer (fst (makeMove socket move (srv_rooms s))) (srv_sockets s)
    end
  | RematchVoteMsg sid =>
    match srv_sockets s !! sid with
    | None => s
    | Some socket =>
      mkServer (fst (fst (processRematchVote socket (srv_rooms s)))) (srv_sockets s)
    end
  | DisconnectMsg sid =>
    match srv_sockets s !! sid with
    | None => s
    | Some socket =>
      mkServer (fst (disconnect socket (srv_rooms s))) (delete sid (srv_sockets s))
    end
  end.

Definition run (s : Server) (es : list event) : Server := foldl step s es.

Definition initialServer : Server := mkServer ∅ ∅.

(** An array literal of row literals, for writing positions down. *)
Definition arrayOf (xs : list Z) : gmap Z Z :=
  list_to_map (zip (seqZ 0 (Z.of_nat (length xs))) xs).

Definition boardOf (rows : list (list Z)) : gmap Z (gmap Z Z) :=
  list_to_map (zip (seqZ 0 (Z.of_nat (length rows))) (arrayOf <$> rows)).

(* --------------------------------------------------------------------- *)
(*  Vocabulary of the statements, and positions to state them at         *)
(* --------------------------------------------------------------------- *)

(** Rows 0..7 exist: what createInitialBoard builds and every write keeps. *)
Definition rows_ok (b : gmap Z (gmap Z Z)) : Prop :=
  forall r, 0 <= r <= 7 -> is_Some (b !! r).

(** The moves one piece can be given: a jump over an adjacent enemy onto
    a free square of the grid, or (without forced continuation) a step
    onto a free adjacent square of the grid. *)
Inductive generated (b : gmap Z (gmap Z Z)) (row col : Z)
    (mjf : option (Z * Z)) (player : Z) (king : bool) : Move -> Prop :=
| gen_jump d :
    In d (directions player king) ->
    in_grid (row + fst d, col + snd d) ->
    in_grid (row + 2 * fst d, col + 2 * snd d) ->
    isEnemy player (cell b (row + fst d) (col + snd d)) = true ->
    is_Some (b !! (row + 2 * fst d)) ->
    truthy (cell b (row + 2 * fst d) (col + 2 * snd d)) = false ->
    generated b row col mjf player king
      (mkMove (row, col) (row + 2 * fst d, col + 2 * snd d)
              (Some (row + fst d, col + snd d)))
| gen_step d :
    In d (directions player king) ->
    in_grid (row + fst d, col + snd d) ->
    is_Some (b !! (row + fst d)) ->
    truthy (cell b (row + fst d) (col + snd d)) = false ->
    mjf = None ->
    generated b row col mjf player king
      (mkMove (row, col) (row + fst d, col + snd d) None).

Definition scan_inv (b : gmap Z (gmap Z Z)) (row col : Z)
    (mjf : option (Z * Z)) (player : Z) (king : bool)
    (acc : list Move * list Move) : Prop :=
  (forall m, In m (fst acc) ->
     generated b row col mjf player king m /\ isCapture m = true) /\
  (forall m, In m (snd acc) ->
     generated b row col mjf player king m /\ isCapture m = false).

(** The piece at (r, c) belongs to [player] and [ms] are its moves. *)
Definition piece_moves (b : gmap Z (gmap Z Z)) (player : Z)
    (mjf : option (Z * Z)) (r c : Z) (ms : list Move) : Prop :=
  exists pc, cell b r c = Some pc /\ pc <> 0 /\ playerOf pc = player /\
             getValidMoves b r c mjf = Ok ms.

(** The three board writes of applyMove, in order. *)
Definition writes_of (b : gmap Z (gmap Z Z)) (move : Move)
    (b3 : gmap Z (gmap Z Z)) : Prop :=
  exists b1 b2,
    writeCell b (fst (from move)) (snd (from move)) (Some 0) = Ok b1 /\
    match captured move with
    | Some cap => writeCell b1 (fst cap) (snd cap) (Some 0)
    | None => Ok b1
    end = Ok b2 /\
    writeCell b2 (fst (to move)) (snd (to move))
      (promote (cell b (fst (from move)) (snd (from move))) (fst (to move))) = Ok b3.

Ltac run_monad :=
  unfold bind, getCell, setCell, reads, modify, ret; simpl.

(** Whether the capturing piece must go on: it did not just promote and
    has a further jump from where it landed. *)
Definition continues (move : Move) (piece : option Z)
    (further : list Move) : bool :=
  isCapture move && same_value (promote piece (fst (to move))) piece &&
  (0 <? Z.of_nat (length (List.filter isCapture further))).

(** Number of cells of the 8x8 grid whose content satisfies [p]. *)
Definition countCells (p : option Z -> bool) (b : gmap Z (gmap Z Z)) : nat :=
  length (List.filter (fun rc => p (cell b (fst rc) (snd rc)))
            (list_prod (seqZ 0 8) (seqZ 0 8))).

(** The layout createInitialBoard builds, cell by cell. *)
Definition startCell (r c : Z) : Z :=
  if (r + c) mod 2 =? 1
  then (if r <? 3 then 2 else if 4 <? r then 1 else 0)
  else 0.

Definition tokens (s : Server) : list string :=
  (map_to_list (srv_rooms s)).*1.

(** A man of player 1 on (5,2) that can jump (4,3) into (3,4) and from
    there (2,5) into (1,6); a second man of player 1 on (7,0) that could
    only step. *)
Definition multiJump : gmap Z (gmap Z Z) :=
  boardOf [ [0;0;0;0;0;0;0;0];
            [0;0;0;0;0;0;0;0];
            [0;0;0;0;0;2;0;0];
            [0;0;0;0;0;0;0;0];
            [0;0;0;2;0;0;0;0];
            [0;0;1;0;0;0;0;0];
            [0;0;0;0;0;0;0;0];
            [1;0;0;0;0;0;0;0] ].

(** A man of player 1 on (2,1) that can jump (1,2) into (0,3), the far
    rank; from (0,3) a king could jump (1,4) into (2,5). *)
Definition jumpToKing : gmap Z (gmap Z Z) :=
  boardOf [ [0;0;0;0;0;0;0;0];
            [0;0;2;0;2;0;0;0];
            [0;1;0;0;0;0;0;0];
            [0;0;0;0;0;0;0;0];
            [0;0;0;0;0;0;0;0];
            [0;0;0;0;0;0;0;0];
            [0;0;0;0;0;0;0;2];
            [0;0;0;0;0;0;0;0] ].

(** Player 2 has one man left, on (4,3), about to be jumped. *)
Definition lastMan : gmap Z (gmap Z Z) :=
  boardOf [ [0;0;0;0;0;0;0;0];
            [0;0;0;0;0;0;0;0];
            [0;0;0;0;0;0;0;0];
            [0;0;0;0;0;0;0;0];
            [0;0;0;2;0;0;0;0];
            [0;0;1;0;0;0;0;0];
            [0;0;0;0;0;0;0;0];
            [0;0;0;0;0;0;0;0] ].

Definition inPlay (b : gmap Z (gmap Z Z)) : GameState :=
  mkGameState b 1 None None.

(** A room with two players, right after the second one joined. *)
Definition startedRooms : gmap string Room :=
  {[ "ABC123"%string := mkRoom ["a"; "b"]%string (Some createGameState) ∅ ]}.

Definition socketA : Socket := mkSocket "a" (Some "ABC123"%string) (Some 1).

Definition socketB : Socket := mkSocket "b" (Some "ABC123"%string) (Some 2).

(** The game state of the room under a token, if any. *)
Definition gameOf (rooms : gmap string Room) (k : string) : option GameState :=
  rooms !! k ≫= gameState.

(* --------------------------------------------------------------------- *)
(*  The client script: move generation and the render predicates         *)
(* --------------------------------------------------------------------- *)

(** getValidMovesForPiece.  Its direction list and loop body are, name
    for name, those of the server's getValidMoves; its last line tests
    [jumps.length] where the server tests [jumps.length > 0]. *)
Definition getValidMovesForPiece (b : gmap Z (gmap Z Z)) (row col : Z)
    (mjf : option (Z * Z)) : res (list Move) :=
  piece <- readCell b row col ;;
  match piece with
  | None => Ok []
  | Some pc =>
    if pc =? 0 then Ok []
    else
      let player := playerOf pc in
      acc <- foldM (scanDirection b row col mjf player) ([], [])
                   (directions player (isKing pc)) ;;
      match mjf with
      | Some p =>
        if (fst p =? row) && (snd p =? col) then Ok (fst acc) else Ok []
      | None =>
        Ok (if negb (Z.of_nat (length (fst acc)) =? 0) then fst acc else snd acc)
      end
  end.

(** Body of the inner loop of getAllMovesForPlayer at cell (r, c). *)
Definition collectPiece (b : gmap Z (gmap Z Z)) (player : Z)
    (mjf : option (Z * Z)) (r : Z) (all : list Move) (c : Z) : res (list Move) :=
  p <- readCell b r c ;;
  match p with
  | None => Ok all
  | Some pc =>
    if pc =? 0 then Ok all
    else if negb (playerOf pc =? player) then Ok all
    else ms <- getValidMovesForPiece b r c mjf ;; Ok (all ++ ms)
  end.

Definition getAllMovesForPlayer (b : gmap Z (gmap Z Z)) (player : Z)
    (mjf : option (Z * Z)) : res (list Move) :=
  all <- foldM (fun all r => foldM (collectPiece b player mjf r) all (seqZ 0 8))
               [] (seqZ 0 8) ;;
  let jumps := List.filter isCapture all in
  Ok (if negb (Z.of_nat (length jumps) =? 0) then jumps else all).

(** renderGame: [(currentTurn === myPlayerIndex) && !winner], with
    [myPlayerIndex] null until the server assigned it. *)
Definition isMyTurn (gs : GameState) (myPlayerIndex : option Z) : bool :=
  bool_decide (Some (currentTurn gs) = myPlayerIndex) && negb (truthy (winner gs)).

(** renderGame: [allMyMoves]. *)
Definition allMyMoves (gs : GameState) (myPlayerIndex : option Z)
  : res (list Move) :=
  if isMyTurn gs myPlayerIndex then
    match myPlayerIndex with
    | Some me => getAllMovesForPlayer (board gs) me (mustJumpFrom gs)
    | None => Ok []
    end
  else Ok [].

(** renderGame: [isMyPiece] for the content of a cell. *)
Definition isMyPiece (myPlayerIndex : option Z) (piece : option Z) : bool :=
  truthy piece &&
  ((bool_decide (myPlayerIndex = Some 1) && (is_num piece 1 || is_num piece 3)) ||
   (bool_decide (myPlayerIndex = Some 2) && (is_num piece 2 || is_num piece 4))).

(** renderGame: [isSelectable] for the cell (row, col); a piece gets its
    click listener exactly when this holds. *)
Definition isSelectable (gs : GameState) (myPlayerIndex : option Z)
    (row col : Z) : res bool :=
  mine <- allMyMoves gs myPlayerIndex ;;
  piece <- readCell (board gs) row col ;;
  Ok (isMyTurn gs myPlayerIndex && isMyPiece myPlayerIndex piece &&
      existsb (fun m => (fst (from m) =? row) && (snd (from m) =? col)) mine).

(** renderGame: the two counters of the piece-counting loop,
    (p1pieces, p2pieces), and the arguments it gives renderCaptured. *)
Definition countPiece (b : gmap Z (gmap Z Z)) (r : Z) (acc : Z * Z) (c : Z)
  : res (Z * Z) :=
  p <- readCell b r c ;;
  let p1pieces := if is_num p 1 || is_num p 3 then fst acc + 1 else fst acc in
  let p2pieces := if is_num p 2 || is_num p 4 then snd acc + 1 else snd acc in
  Ok (p1pieces, p2pieces).

Definition countPieces (b : gmap Z (gmap Z Z)) : res (Z * Z) :=
  foldM (fun acc r => foldM (countPiece b r) acc (seqZ 0 8)) (0, 0) (seqZ 0 8).

Definition capturedCounts (b : gmap Z (gmap Z Z)) : res (Z * Z) :=
  n <- countPieces b ;; Ok (12 - snd n, 12 - fst n).

(* --------------------------------------------------------------------- *)
(*  Games played with legal moves                                        *)
(* --------------------------------------------------------------------- *)

(** The game states the makeMove handler produces from a fresh game when
    every accepted submission is one of the move objects of
    getAllValidMoves. *)
Inductive played : GameState -> Prop :=
| played_start : played createGameState
| played_move gs valid move gs' :
    played gs ->
    truthy (winner gs) = false ->
    getAllValidMoves (board gs) (currentTurn gs) (mustJumpFrom gs) = Ok valid ->
    In move valid ->
    applyMove move gs = (gs', Ok tt) ->
    played gs'.

(** A board of the game: the 64 cells of the grid hold 0..4 and nothing
    lies beside them; pieces stand on the squares with odd row + column;
    no man stands on the rank where it would have been crowned. *)
Definition board_ok (b : gmap Z (gmap Z Z)) : Prop :=
  forall r c,
    (in_grid (r, c) ->
       exists v, cell b r c = Some v /\ 0 <= v <= 4 /\
                 (v <> 0 -> (r + c) mod 2 = 1) /\
                 (r = 0 -> v <> 1) /\ (r = 7 -> v <> 2)) /\
    (~ in_grid (r, c) -> cell b r c = None).

(** Numbers of cells of the grid that hold a piece of player 1, of
    player 2. *)
Definition pieces1 (b : gmap Z (gmap Z Z)) : nat :=
  countCells (fun v => is_num v 1 || is_num v 3) b.

Definition pieces2 (b : gmap Z (gmap Z Z)) : nat :=
  countCells (fun v => is_num v 2 || is_num v 4) b.

(** Replays a list of move objects from a state, each of them checked
    the way [played] asks: no winner yet, the object is one of
    getAllValidMoves, applyMove runs to its end. *)
Definition sameMove (m1 m2 : Move) : bool :=
  sameSquares m1 m2 &&
  match captured m1, captured m2 with
  | Some c1, Some c2 => (fst c1 =? fst c2) && (snd c1 =? snd c2)
  | None, None => true
  | _, _ => false
  end.

Fixpoint replay (moves : list Move) (gs : GameState) : option GameState :=
  match moves with
  | [] => Some gs
  | move :: rest =>
    if truthy (winner gs) then None
    else
      match getAllValidMoves (board gs) (currentTurn gs) (mustJumpFrom gs) with
      | Ok valid =>
        if existsb (sameMove move) valid then
          match applyMove move gs with
          | (gs', Ok _) => replay rest gs'
          | (_, Throw _) => None
          end
        else None
      | Throw _ => None
      end
  end.

(** A game of six legal moves from the start, after which player 2, who
    has just jumped from (1,4) into (3,2), has to jump on. *)
Definition openingGame : list Move :=
  [ mkMove (5, 0) (4, 1) None; mkMove (2, 1) (3, 0) None;
    mkMove (5, 4) (4, 3) None; mkMove (2, 3) (3, 2) None;
    mkMove (4, 1) (2, 3) (Some (3, 2)); mkMove (1, 4) (3, 2) (Some (2, 3)) ].

Definition afterOpening : GameState :=
  match replay openingGame createGameState with
  | Some gs => gs
  | None => createGameState
  end.

(** [board_ok], as a test that can be run on a position written down. *)
Definition cell_okb (b : gmap Z (gmap Z Z)) (rc : Z * Z) : bool :=
  match cell b (fst rc) (snd rc) with
  | Some v =>
    (0 <=? v) && (v <=? 4) &&
    ((v =? 0) || ((fst rc + snd rc) mod 2 =? 1)) &&
    negb ((fst rc =? 0) && (v =? 1)) && negb ((fst rc =? 7) && (v =? 2))
  | None => false
  end.

Definition board_okb (b : gmap Z (gmap Z Z)) : bool :=
  bool_decide (dom b = list_to_set (seqZ 0 8)) &&
  bool_decide (map_Forall (fun _ (cells : gmap Z Z) =>
                             dom cells = list_to_set (seqZ 0 8)) b) &&
  forallb (cell_okb b) (list_prod (seqZ 0 8) (seqZ 0 8)).

(* ===================================================================== *)
(*  Properties                                                           *)
(* ===================================================================== *)

Lemma res_bind_ok {A B} (x : res A) (k : A -> res B) (y : B) :
  res_bind x k = Ok y -> exists a, x = Ok a /\ k a = Ok y.
Proof. destruct x as [a|e]; simpl; [eauto | discriminate]. Qed.

Section Loops.
Context {A B : Type}.

(** Loop invariant rule for a loop whose body may throw. *)
Lemma foldM_inv (P : A -> Prop) (f : A -> B -> res A) (l : list B) :
  (forall a x a', In x l -> P a -> f a x = Ok a' -> P a') ->
  forall acc out, P acc -> foldM f acc l = Ok out -> P out.
Proof.
  induction l as [|x l IH]; intros Hf acc out Hacc Hrun; simpl in Hrun.
  - congruence.
  - apply res_bind_ok in Hrun as (a & Hx & Hrest).
    eapply IH; [ | | exact Hrest].
    + intros; eapply Hf; eauto; now right.
    + eapply Hf; eauto; now left.
Qed.

(** A loop whose body never throws does not throw. *)
Lemma foldM_total (f : A -> B -> res A) (l : list B) :
  (forall a x, In x l -> exists a', f a x = Ok a') ->
  forall acc, exists out, foldM f acc l = Ok out.
Proof.
  induction l as [|x l IH]; intros Hf acc; simpl.
  - eauto.
  - destruct (Hf acc x) as [a' Ha]; [now left|].
    rewrite Ha; simpl. apply IH. intros; apply Hf; now right.
Qed.

(** A loop that finished ran its body, without a throw, on every item. *)
Lemma foldM_ran (f : A -> B -> res A) (l : list B) :
  forall acc out x, foldM f acc l = Ok out -> In x l ->
  exists a a', f a x = Ok a'.
Proof.
  induction l as [|y l IH]; intros acc out x Hrun Hin; simpl in *.
  - contradiction.
  - apply res_bind_ok in Hrun as (a & Hy & Hrest).
    destruct Hin as [->|Hin]; eauto.
Qed.
End Loops.

Lemma readCell_cell b r c v : readCell b r c = Ok v -> cell b r c = v.
Proof.
  unfold readCell, cell. destruct (b !! r); simpl; congruence.
Qed.

Lemma readCell_row b r c v : readCell b r c = Ok v -> is_Some (b !! r).
Proof.
  unfold readCell. destruct (b !! r); [eauto | discriminate].
Qed.

Lemma readCell_ok b r c : is_Some (b !! r) -> readCell b r c = Ok (cell b r c).
Proof.
  intros [cells H]. unfold readCell, cell. now rewrite H.
Qed.

Lemma writeCell_ok b r c v :
  is_Some (b !! r) -> exists b', writeCell b r c v = Ok b'.
Proof.
  intros [cells H]. unfold writeCell. rewrite H. eauto.
Qed.

Lemma writeCell_row b r c v b' r' :
  writeCell b r c v = Ok b' -> is_Some (b !! r') -> is_Some (b' !! r').
Proof.
  unfold writeCell. destruct (b !! r) eqn:Hr; [|discriminate].
  intros [= <-] H. destruct (decide (r = r')) as [->|Hne].
  - rewrite lookup_insert_eq. eauto.
  - now rewrite lookup_insert_ne.
Qed.

Lemma writeCell_rows_ok b r c v b' :
  writeCell b r c v = Ok b' -> rows_ok b -> rows_ok b'.
Proof. intros Hw Hb r' Hr'. eapply writeCell_row; eauto. Qed.

Lemma writeCell_same b r c v b' :
  writeCell b r c v = Ok b' -> cell b' r c = v.
Proof.
  unfold writeCell, cell. destruct (b !! r) eqn:Hr; [|discriminate].
  intros [= <-]. rewrite lookup_insert_eq. simpl.
  apply lookup_partial_alter_eq.
Qed.

Lemma writeCell_other b r c v b' r' c' :
  writeCell b r c v = Ok b' -> (r', c') <> (r, c) -> cell b' r' c' = cell b r' c'.
Proof.
  unfold writeCell, cell. destruct (b !! r) eqn:Hr; [|discriminate].
  intros [= <-] Hne. destruct (decide (r = r')) as [<-|Hrr].
  - rewrite lookup_insert_eq, Hr. simpl.
    apply lookup_partial_alter_ne. congruence.
  - now rewrite lookup_insert_ne.
Qed.

(* --------------------------------------------------------------------- *)
(*  What getValidMoves can return                                        *)
(* --------------------------------------------------------------------- *)

Lemma directions_unit player king d :
  In d (directions player king) ->
  (fst d = -1 \/ fst d = 1) /\ (snd d = -1 \/ snd d = 1).
Proof.
  unfold directions. rewrite in_app_iff.
  destruct (_ || king), (_ || king); simpl; intros H;
    repeat (destruct H as [<-|H] || destruct H as [H|H] || destruct H);
    simpl; lia.
Qed.

Lemma scanDirection_inv b row col mjf player king acc d acc' :
  In d (directions player king) ->
  scan_inv b row col mjf player king acc ->
  scanDirection b row col mjf player acc d = Ok acc' ->
  scan_inv b row col mjf player king acc'.
Proof.
  intros Hd [Hj Hm]. unfold scanDirection.
  destruct ((_ <? 0) || _ || _ || _) eqn:Hout.
  { intros [= <-]. now split. }
  assert (Hin : in_grid (row + fst d, col + snd d)) by (unfold in_grid; simpl; lia).
  intros Hrun. apply res_bind_ok in Hrun as (target & Ht & Hrun).
  pose proof (readCell_row _ _ _ _ Ht) as Htrow.
  apply readCell_cell in Ht.
  destruct (isEnemy player target) eqn:Henemy.
  - destruct ((0 <=? _) && _ && _ && _) eqn:Hland.
    2:{ injection Hrun as <-. now split. }
    apply res_bind_ok in Hrun as (landing & Hl & Hrun).
    pose proof (readCell_row _ _ _ _ Hl) as Hlrow.
    apply readCell_cell in Hl.
    destruct (truthy landing) eqn:Hfree; simpl in Hrun; injection Hrun as <-.
    { now split. }
    split; simpl; [|exact Hm].
    intros m [Hin'|Hin']%in_app_iff; [now apply Hj|].
    destruct Hin' as [<-|[]]. split; [|reflexivity].
    apply gen_jump; try assumption; try congruence.
    unfold in_grid; simpl; lia.
  - destruct (negb (truthy target) && _) eqn:Hfree; injection Hrun as <-.
    2:{ now split. }
    apply andb_prop in Hfree as [Hfree Hnone].
    split; simpl; [exact Hj|].
    intros m [Hin'|Hin']%in_app_iff; [now apply Hm|].
    destruct Hin' as [<-|[]]. split; [|reflexivity].
    apply gen_step; try assumption.
    + rewrite Ht. now apply negb_true_iff.
    + apply negb_true_iff, bool_decide_eq_false in Hnone.
      destruct mjf; [|reflexivity]. exfalso; apply Hnone; eauto.
Qed.

Lemma getValidMoves_scan b row col mjf ms :
  getValidMoves b row col mjf = Ok ms ->
  ms = [] \/
  exists pc acc,
    cell b row col = Some pc /\ pc <> 0 /\
    scan_inv b row col mjf (playerOf pc) (isKing pc) acc /\
    (ms = fst acc \/ (ms = snd acc /\ fst acc = [] /\ mjf = None)).
Proof.
  unfold getValidMoves. intros Hrun.
  apply res_bind_ok in Hrun as (piece & Hp & Hrun).
  apply readCell_cell in Hp.
  destruct piece as [pc|]; [|left; congruence].
  destruct (pc =? 0) eqn:Hz; [left; congruence|].
  apply res_bind_ok in Hrun as (acc & Hfold & Hrun).
  assert (Hinv : scan_inv b row col mjf (playerOf pc) (isKing pc) acc).
  { eapply (foldM_inv _ _ _ ) with (acc := ([], [])); [| |exact Hfold].
    - intros a x a' Hx Ha Hs. eapply scanDirection_inv; eauto.
    - split; intros m []. }
  destruct mjf as [p|].
  - destruct ((fst p =? row) && (snd p =? col)); injection Hrun as <-;
      [|now left].
    right. exists pc, acc.
    split; [exact Hp|]. split; [lia|]. split; [exact Hinv|]. now left.
  - injection Hrun as <-. right. exists pc, acc.
    split; [exact Hp|]. split; [lia|]. split; [exact Hinv|].
    destruct (fst acc) as [|x l]; simpl; [right | left]; auto.
Qed.

(** Every move of getValidMoves is a generated move of the piece at
    (row, col). *)
Lemma getValidMoves_generated b row col mjf ms m :
  getValidMoves b row col mjf = Ok ms -> In m ms ->
  exists pc, cell b row col = Some pc /\ pc <> 0 /\
             generated b row col mjf (playerOf pc) (isKing pc) m.
Proof.
  intros Hrun Hin.
  destruct (getValidMoves_scan _ _ _ _ _ Hrun) as [->|(pc & acc & Hc & Hpc & [Hj Hm] & Hms)].
  { contradiction. }
  exists pc. repeat split; try assumption.
  destruct Hms as [->|(-> & _)]; [now apply Hj | now apply Hm].
Qed.

(* --------------------------------------------------------------------- *)
(*  The move generators do not throw on a board with its eight rows      *)
(* --------------------------------------------------------------------- *)

Lemma scanDirection_total b row col mjf player acc d :
  rows_ok b -> exists acc', scanDirection b row col mjf player acc d = Ok acc'.
Proof.
  intros Hb. unfold scanDirection.
  destruct ((_ <? 0) || _ || _ || _) eqn:Hout; [eauto|].
  rewrite readCell_ok by (apply Hb; lia). simpl.
  destruct (isEnemy _ _).
  - destruct ((0 <=? _) && _ && _ && _) eqn:Hland; [|eauto].
    rewrite readCell_ok by (apply Hb; lia). simpl.
    destruct (negb _); eauto.
  - destruct (_ && _); eauto.
Qed.

Lemma getValidMoves_total b row col mjf :
  rows_ok b -> is_Some (b !! row) ->
  exists ms, getValidMoves b row col mjf = Ok ms.
Proof.
  intros Hb Hrow. unfold getValidMoves.
  rewrite readCell_ok by assumption. simpl.
  destruct (cell b row col) as [pc|]; [|eauto].
  destruct (pc =? 0); [eauto|].
  destruct (foldM_total (scanDirection b row col mjf (playerOf pc))
              (directions (playerOf pc) (isKing pc))
              (fun a x _ => scanDirection_total b row col mjf _ a x Hb) ([], []))
    as [acc ->].
  simpl. destruct mjf as [p|]; [destruct (_ && _)|]; eauto.
Qed.

Lemma in_seqZ_0_8 x : In x (seqZ 0 8) <-> 0 <= x <= 7.
Proof.
  rewrite <- list_elem_of_In, elem_of_seqZ. lia.
Qed.

Lemma collectCell_total b player mjf r all c :
  rows_ok b -> 0 <= r <= 7 ->
  exists all', collectCell b player mjf r all c = Ok all'.
Proof.
  intros Hb Hr. unfold collectCell.
  rewrite readCell_ok by (now apply Hb). simpl.
  destruct (cell b r c) as [pc|]; [|eauto].
  destruct (pc =? 0); [eauto|]. destruct (negb _); [eauto|].
  destruct (getValidMoves_total b r c mjf Hb (Hb r Hr)) as [ms ->].
  simpl. eauto.
Qed.

Lemma collectAll_total b player mjf :
  rows_ok b -> exists all, collectAll b player mjf = Ok all.
Proof.
  intros Hb. unfold collectAll. apply foldM_total.
  intros a r Hr%in_seqZ_0_8. apply foldM_total.
  intros a' c _. now apply collectCell_total.
Qed.

(** getAllValidMoves returns a list on every board that has its rows. *)
Lemma getAllValidMoves_total b player mjf :
  rows_ok b -> exists valid, getAllValidMoves b player mjf = Ok valid.
Proof.
  intros Hb. unfold getAllValidMoves.
  destruct (collectAll_total b player mjf Hb) as [all ->]. simpl. eauto.
Qed.

(** Conversely, it can only return when the rows are all there. *)
Lemma collectAll_rows b player mjf all :
  collectAll b player mjf = Ok all -> rows_ok b.
Proof.
  intros Hrun r Hr. unfold collectAll in Hrun.
  destruct (foldM_ran _ _ _ _ r Hrun) as (a & a' & Hrow);
    [now apply in_seqZ_0_8|].
  destruct (foldM_ran _ _ _ _ 0 Hrow) as (a0 & a0' & Hcell);
    [apply in_seqZ_0_8; lia|].
  unfold collectCell in Hcell.
  apply res_bind_ok in Hcell as (piece & Hp & _).
  eapply readCell_row; eauto.
Qed.

Lemma getAllValidMoves_rows b player mjf valid :
  getAllValidMoves b player mjf = Ok valid -> rows_ok b.
Proof.
  unfold getAllValidMoves. intros Hrun.
  apply res_bind_ok in Hrun as (all & Hall & _).
  eapply collectAll_rows; eauto.
Qed.

(* --------------------------------------------------------------------- *)
(*  What getAllValidMoves collects                                       *)
(* --------------------------------------------------------------------- *)

Lemma collectCell_spec b player mjf r all c all' :
  collectCell b player mjf r all c = Ok all' ->
  all' = all \/
  exists ms, piece_moves b player mjf r c ms /\ all' = all ++ ms.
Proof.
  unfold collectCell. intros Hrun.
  apply res_bind_ok in Hrun as (piece & Hp & Hrun).
  apply readCell_cell in Hp.
  destruct piece as [pc|]; [|left; congruence].
  destruct (pc =? 0) eqn:Hz; [left; congruence|].
  destruct (negb _) eqn:Hown; [left; congruence|].
  apply res_bind_ok in Hrun as (ms & Hms & [= <-]).
  right. exists ms. split; [|reflexivity].
  exists pc. apply negb_false_iff in Hown. repeat split; try assumption; lia.
Qed.

Lemma collectCell_owned b player mjf r all c ms :
  piece_moves b player mjf r c ms ->
  is_Some (b !! r) ->
  collectCell b player mjf r all c = Ok (all ++ ms).
Proof.
  intros (pc & Hc & Hpc & Hown & Hms) Hrow. unfold collectCell.
  rewrite readCell_ok by assumption. simpl. rewrite Hc.
  destruct (pc =? 0) eqn:Hz; [lia|].
  destruct (negb _) eqn:Hneg.
  { apply negb_true_iff in Hneg. lia. }
  rewrite Hms. reflexivity.
Qed.

(** Everything collected comes from a piece of [player] on the grid. *)
Lemma collectAll_sound b player mjf all m :
  collectAll b player mjf = Ok all -> In m all ->
  exists r c ms, 0 <= r <= 7 /\ 0 <= c <= 7 /\
                 piece_moves b player mjf r c ms /\ In m ms.
Proof.
  unfold collectAll. intros Hrun.
  revert m. eapply (foldM_inv (fun acc => forall m, In m acc -> _));
    [| |exact Hrun]; [|intros m []].
  intros a r a' Hr%in_seqZ_0_8 Ha Hrow.
  eapply (foldM_inv (fun acc => forall m, In m acc -> _)); [|exact Ha|exact Hrow].
  intros a0 c a0' Hc%in_seqZ_0_8 Ha0 Hcell m Hm.
  destruct (collectCell_spec _ _ _ _ _ _ _ Hcell) as [->|(ms & Hpm & ->)];
    [now apply Ha0|].
  apply in_app_iff in Hm as [Hm|Hm]; [now apply Ha0|].
  exists r, c, ms. auto.
Qed.

Lemma collectCell_grows b player mjf r all c all' :
  collectCell b player mjf r all c = Ok all' -> incl all all'.
Proof.
  intros H. destruct (collectCell_spec _ _ _ _ _ _ _ H) as [->|(ms & _ & ->)].
  - apply incl_refl.
  - now apply incl_appl, incl_refl.
Qed.

Lemma foldM_grows {B} (f : list Move -> B -> res (list Move)) (l : list B) :
  (forall a x a', f a x = Ok a' -> incl a a') ->
  forall acc out, foldM f acc l = Ok out -> incl acc out.
Proof.
  intros Hf. induction l as [|x l IH]; intros acc out Hrun; simpl in Hrun.
  - injection Hrun as <-. apply incl_refl.
  - apply res_bind_ok in Hrun as (a & Hx & Hrest).
    eapply incl_tran; [eapply Hf|eapply IH]; eauto.
Qed.

(** A loop that only appends keeps what any one iteration added. *)
Lemma foldM_keeps {B} (f : list Move -> B -> res (list Move)) (l : list B)
    (Q : B -> list Move -> Prop) :
  (forall a x a', f a x = Ok a' -> incl a a') ->
  (forall a x a' ms, f a x = Ok a' -> Q x ms -> incl ms a') ->
  forall acc out x ms, foldM f acc l = Ok out -> In x l -> Q x ms -> incl ms out.
Proof.
  intros Hgrow Hadd. induction l as [|y l IH]; intros acc out x ms Hrun Hin HQ;
    simpl in *; [contradiction|].
  apply res_bind_ok in Hrun as (a & Hy & Hrest).
  destruct Hin as [->|Hin].
  - eapply incl_tran; [eapply Hadd; eauto|].
    eapply foldM_grows; eauto.
  - eapply IH; eauto.
Qed.

(** Every move of every piece of [player] on the grid is collected. *)
Lemma collectAll_complete b player mjf all r c ms :
  collectAll b player mjf = Ok all ->
  0 <= r <= 7 -> 0 <= c <= 7 ->
  piece_moves b player mjf r c ms -> incl ms all.
Proof.
  intros Hrun Hr Hc Hpm.
  pose proof (collectAll_rows _ _ _ _ Hrun) as Hb.
  unfold collectAll in Hrun.
  eapply (foldM_keeps _ _ (fun r' ms' => r' = r /\ ms' = ms));
    [| |exact Hrun|apply in_seqZ_0_8; exact Hr|split; reflexivity].
  - intros a x a'. apply foldM_grows. intros a0 x0 a0'. apply collectCell_grows.
  - intros a x a' ms' Hrow [-> ->].
    eapply (foldM_keeps _ _ (fun c' ms' => c' = c /\ ms' = ms));
      [| |exact Hrow|apply in_seqZ_0_8; exact Hc|split; reflexivity].
    + intros a0 x0 a0'. apply collectCell_grows.
    + intros a0 x0 a0' ms0 Hcell [-> ->].
      rewrite (collectCell_owned _ _ _ _ a0 _ _ Hpm (Hb r Hr)) in Hcell.
      injection Hcell as <-. apply incl_appr, incl_refl.
Qed.

(* --------------------------------------------------------------------- *)
(*  Jumps do not depend on the forced continuation                       *)
(* --------------------------------------------------------------------- *)

Lemma scanDirection_jumps b row col mjf1 mjf2 player acc1 acc2 d out1 :
  fst acc1 = fst acc2 ->
  scanDirection b row col mjf1 player acc1 d = Ok out1 ->
  exists out2, scanDirection b row col mjf2 player acc2 d = Ok out2 /\
               fst out1 = fst out2.
Proof.
  intros Hacc. unfold scanDirection.
  destruct ((_ <? 0) || _ || _ || _); [intros [= <-]; eauto|].
  destruct (readCell b (row + fst d) (col + snd d)) as [target|e]; simpl;
    [|discriminate].
  destruct (isEnemy player target).
  - destruct ((0 <=? _) && _ && _ && _); [|intros [= <-]; eauto].
    destruct (readCell b (row + 2 * fst d) (col + 2 * snd d)) as [landing|e];
      simpl; [|discriminate].
    destruct (negb (truthy landing)); intros [= <-]; eexists; split;
      try reflexivity; simpl; congruence.
  - destruct (negb (truthy target) && negb (bool_decide (is_Some mjf1)));
      intros [= <-];
      destruct (negb (truthy target) && negb (bool_decide (is_Some mjf2)));
      eexists; split; try reflexivity; simpl; congruence.
Qed.

Lemma scan_jumps b row col mjf1 mjf2 player ds :
  forall acc1 acc2 out1,
  fst acc1 = fst acc2 ->
  foldM (scanDirection b row col mjf1 player) acc1 ds = Ok out1 ->
  exists out2, foldM (scanDirection b row col mjf2 player) acc2 ds = Ok out2 /\
               fst out1 = fst out2.
Proof.
  induction ds as [|d ds IH]; intros acc1 acc2 out1 Hacc Hrun; simpl in *.
  - injection Hrun as <-. eauto.
  - apply res_bind_ok in Hrun as (a1 & Hd & Hrest).
    destruct (scanDirection_jumps b row col mjf1 mjf2 player acc1 acc2 d a1 Hacc Hd)
      as (a2 & -> & Ha).
    simpl. eapply IH; eauto.
Qed.

(** A capture that getValidMoves returns under some forced continuation
    is also returned when nothing is forced. *)
Lemma getValidMoves_capture_unforced b row col mjf ms m :
  getValidMoves b row col mjf = Ok ms -> In m ms -> isCapture m = true ->
  exists ms0, getValidMoves b row col None = Ok ms0 /\ In m ms0.
Proof.
  intros Hrun Hin Hcap.
  destruct (getValidMoves_scan _ _ _ _ _ Hrun)
    as [->|(pc & acc & Hc & Hpc & [Hj Hm] & Hms)]; [contradiction|].
  assert (Hjump : In m (fst acc)).
  { destruct Hms as [->|(-> & _)]; [assumption|].
    apply Hm in Hin as [_ Hno]. congruence. }
  revert Hrun. unfold getValidMoves.
  destruct (readCell b row col) as [piece|e] eqn:Hread; simpl; [|discriminate].
  apply readCell_cell in Hread. rewrite Hc in Hread. subst piece.
  destruct (pc =? 0) eqn:Hz; [lia|].
  intros Hrun. apply res_bind_ok in Hrun as (acc1 & Hfold & Hrun).
  destruct (scan_jumps b row col mjf None (playerOf pc) _ ([], []) ([], []) acc1
              eq_refl Hfold) as (acc0 & -> & Hfst).
  simpl. eexists; split; [reflexivity|].
  assert (Hin1 : In m (fst acc1)).
  { destruct mjf as [p|].
    - destruct (_ && _); injection Hrun as <-; [assumption|contradiction].
    - injection Hrun as <-. destruct (fst acc1) as [|x l] eqn:E.
      + simpl in Hin. destruct acc1 as [j1 m1]; simpl in *. subst j1.
        pose proof (foldM_inv (scan_inv b row col None (playerOf pc) (isKing pc))
                      _ _ (fun a x a' Hx Ha Hs =>
                             scanDirection_inv _ _ _ _ _ _ _ _ _ Hx Ha Hs)
                      ([], []) ([], m1)
                      (conj (fun m (H : In m []) => match H with end)
                            (fun m (H : In m []) => match H with end)) Hfold)
          as [_ Hm1].
        apply Hm1 in Hin as [_ Hno]. congruence.
      + assumption. }
  rewrite <- Hfst. destruct (fst acc1) as [|x l]; [contradiction|].
  exact Hin1.
Qed.

(** Under a forced continuation getValidMoves returns captures only. *)
Lemma getValidMoves_forced b row col p ms m :
  getValidMoves b row col (Some p) = Ok ms -> In m ms -> isCapture m = true.
Proof.
  intros Hrun Hin.
  destruct (getValidMoves_scan _ _ _ _ _ Hrun)
    as [->|(pc & acc & Hc & Hpc & [Hj Hm] & Hms)]; [contradiction|].
  destruct Hms as [->|(_ & _ & [=])]. now apply Hj.
Qed.

Lemma filter_nonempty (all : list Move) m :
  In m all -> isCapture m = true ->
  (0 <? Z.of_nat (length (List.filter isCapture all))) = true.
Proof.
  intros Hin Hcap.
  assert (H : In m (List.filter isCapture all)) by (apply filter_In; auto).
  destruct (List.filter isCapture all); [contradiction|].
  apply Z.ltb_lt. cbn [length]. lia.
Qed.

Lemma getAllValidMoves_incl b player mjf valid all :
  collectAll b player mjf = Ok all ->
  getAllValidMoves b player mjf = Ok valid -> incl valid all.
Proof.
  unfold getAllValidMoves. intros -> [= <-].
  destruct (0 <? _); [|apply incl_refl].
  intros m Hm. now apply filter_In in Hm.
Qed.

(** C1: mandatory capture.  getAllValidMoves returns on every board with
    its eight rows; a list it returns contains a non-capturing move only
    if it contains no capture; and as soon as some piece of the player on
    the grid has a capture (whatever forced continuation one judges that
    under), every returned move has its captured field set. *)
Theorem getAllValidMoves_mandatory_capture b player mjf :
  (rows_ok b -> exists valid, getAllValidMoves b player mjf = Ok valid) /\
  (forall valid, getAllValidMoves b player mjf = Ok valid ->
     (forall m m', In m valid -> In m' valid ->
                   isCapture m' = true -> isCapture m = true) /\
     (forall mjf' r c ms m',
        0 <= r <= 7 -> 0 <= c <= 7 ->
        piece_moves b player mjf' r c ms -> In m' ms -> isCapture m' = true ->
        forall m, In m valid -> isCapture m = true)).
Proof.
  split; [apply getAllValidMoves_total|].
  intros valid Hrun.
  assert (Hown : forall all m', collectAll b player mjf = Ok all ->
            In m' all -> isCapture m' = true ->
            forall m, In m valid -> isCapture m = true).
  { intros all m' Hall Hin' Hcap m Hm. revert Hrun. unfold getAllValidMoves.
    rewrite Hall. simpl. rewrite (filter_nonempty all m' Hin' Hcap).
    intros [= <-]. now apply filter_In in Hm. }
  pose proof Hrun as Hrun'. unfold getAllValidMoves in Hrun'.
  apply res_bind_ok in Hrun' as (all & Hall & _).
  split.
  - intros m m' Hm Hm' Hcap. eapply (Hown all m'); eauto.
    eapply getAllValidMoves_incl; eauto.
  - intros mjf' r c ms m' Hr Hc (pc & Hcell & Hpc & Hpl & Hms) Hin' Hcap m Hm.
    destruct mjf as [p|].
    + apply (getAllValidMoves_incl _ _ _ _ _ Hall Hrun) in Hm.
      destruct (collectAll_sound _ _ _ _ _ Hall Hm)
        as (r1 & c1 & ms1 & _ & _ & (pc1 & _ & _ & _ & Hms1) & Hin1).
      eapply getValidMoves_forced; eauto.
    + destruct (getValidMoves_capture_unforced _ _ _ _ _ _ Hms Hin' Hcap)
        as (ms0 & Hms0 & Hin0).
      eapply (Hown all m'); eauto.
      eapply (collectAll_complete _ _ _ _ r c ms0); eauto.
      exists pc. auto.
Qed.

(* --------------------------------------------------------------------- *)
(*  applyMove, step by step                                              *)
(* --------------------------------------------------------------------- *)

(** Once the three writes went through, the board is settled: nothing
    later in applyMove touches it, thrown or not. *)
Lemma applyMove_board move gs b3 :
  writes_of (board gs) move b3 -> board (fst (applyMove move gs)) = b3.
Proof.
  intros (b1 & b2 & H1 & H2 & H3).
  assert (Hrow : is_Some (board gs !! fst (from move))).
  { unfold writeCell in H1. destruct (board gs !! _); [eauto|discriminate]. }
  unfold applyMove. run_monad.
  rewrite (readCell_ok _ _ _ Hrow), H1. simpl.
  destruct (captured move) as [cap|] eqn:Hcap; simpl.
  - unfold isCapture. rewrite Hcap, H2. simpl. rewrite H3. simpl.
    destruct (same_value _ _); simpl.
    + destruct (getValidMoves b3 _ _ _) as [further|e]; simpl; [|reflexivity].
      destruct (0 <? _); simpl;
        destruct (getAllValidMoves _ _ _) as [allMoves|e]; simpl;
        try reflexivity; destruct (_ =? 0); reflexivity.
    + destruct (getAllValidMoves _ _ _) as [allMoves|e]; simpl;
        try reflexivity; destruct (_ =? 0); reflexivity.
  - unfold isCapture. rewrite Hcap. injection H2 as <-. rewrite H3. simpl.
    destruct (getAllValidMoves _ _ _) as [allMoves|e]; simpl;
      try reflexivity; destruct (_ =? 0); reflexivity.
Qed.

(** The complete effect of applyMove on a board with its eight rows, for
    a move between rows of the grid: it does not throw, and the state it
    leaves is the one described. *)
Lemma applyMove_complete move gs :
  rows_ok (board gs) ->
  0 <= fst (from move) <= 7 -> 0 <= fst (to move) <= 7 ->
  (forall cap, captured move = Some cap -> 0 <= fst cap <= 7) ->
  exists b3 further allMoves,
    let piece := cell (board gs) (fst (from move)) (snd (from move)) in
    let go := continues move piece further in
    let turn := if go then currentTurn gs else otherPlayer (currentTurn gs) in
    let mjf := if go then Some (to move) else None in
    writes_of (board gs) move b3 /\ rows_ok b3 /\
    getValidMoves b3 (fst (to move)) (snd (to move)) (Some (to move)) = Ok further /\
    getAllValidMoves b3 turn mjf = Ok allMoves /\
    applyMove move gs =
      (mkGameState b3 turn
         (if Z.of_nat (length allMoves) =? 0
          then Some (otherPlayer turn) else winner gs)
         mjf,
       Ok tt).
Proof.
  intros Hb Hfr Htr Hcr.
  destruct (writeCell_ok (board gs) (fst (from move)) (snd (from move)) (Some 0)
              (Hb _ Hfr)) as [b1 H1].
  pose proof (writeCell_rows_ok _ _ _ _ _ H1 Hb) as Hb1.
  assert (exists b2, match captured move with
                     | Some cap => writeCell b1 (fst cap) (snd cap) (Some 0)
                     | None => Ok b1
                     end = Ok b2 /\ rows_ok b2) as (b2 & H2 & Hb2).
  { destruct (captured move) as [cap|]; [|eauto].
    destruct (writeCell_ok b1 (fst cap) (snd cap) (Some 0)) as [b2 H2];
      [apply Hb1; eauto|].
    exists b2. split; [assumption|]. eapply writeCell_rows_ok; eauto. }
  destruct (writeCell_ok b2 (fst (to move)) (snd (to move))
              (promote (cell (board gs) (fst (from move)) (snd (from move)))
                       (fst (to move))) (Hb2 _ Htr)) as [b3 H3].
  pose proof (writeCell_rows_ok _ _ _ _ _ H3 Hb2) as Hb3.
  destruct (getValidMoves_total b3 (fst (to move)) (snd (to move)) (Some (to move))
              Hb3 (Hb3 _ Htr)) as [further Hfur].
  exists b3, further.
  set (piece := cell (board gs) (fst (from move)) (snd (from move))) in *.
  set (go := continues move piece further).
  destruct (getAllValidMoves_total b3
              (if go then currentTurn gs else otherPlayer (currentTurn gs))
              (if go then Some (to move) else None) Hb3) as [allMoves Hall].
  exists allMoves. cbv zeta.
  split; [exists b1, b2; auto|]. split; [assumption|].
  split; [assumption|]. split; [assumption|].
  unfold applyMove. run_monad.
  rewrite (readCell_ok _ _ _ (Hb _ Hfr)), H1. simpl.
  fold piece.
  replace (fst (to move), snd (to move)) with (to move)
    by (destruct (to move); reflexivity).
  subst go. unfold continues in *. unfold isCapture in *.
  destruct (captured move) as [cap|] eqn:Hcap; simpl in *.
  - rewrite H2. simpl. rewrite H3. simpl.
    destruct (same_value (promote piece (fst (to move))) piece); simpl in *.
    + rewrite Hfur. simpl.
      destruct (0 <? Z.of_nat (length (List.filter _ further))); simpl in *;
        rewrite Hall; simpl; destruct (_ =? 0); reflexivity.
    + rewrite Hall. simpl. destruct (_ =? 0); reflexivity.
  - injection H2 as <-. rewrite H3. simpl. rewrite Hall. simpl.
    destruct (_ =? 0); reflexivity.
Qed.

(* --------------------------------------------------------------------- *)
(*  Moves of getValidMoves, applied                                      *)
(* --------------------------------------------------------------------- *)

Lemma cell_row b r c v : cell b r c = Some v -> is_Some (b !! r).
Proof. unfold cell. destruct (b !! r); [eauto|discriminate]. Qed.

Lemma isEnemy_Some player target :
  isEnemy player target = true -> exists v, target = Some v /\ v <> 0.
Proof.
  unfold isEnemy. destruct target as [v|]; simpl; [|discriminate].
  intros H. exists v. split; [reflexivity|].
  destruct (v =? 0) eqn:E; [discriminate|lia].
Qed.

(** The squares of a generated move: origin, destination and captured
    square are pairwise different, destination and captured square lie on
    the grid, and all three rows exist. *)
Lemma generated_squares b row col mjf player king m :
  generated b row col mjf player king m ->
  from m = (row, col) /\ in_grid (to m) /\ to m <> from m /\
  is_Some (b !! fst (to m)) /\
  truthy (cell b (fst (to m)) (snd (to m))) = false /\
  forall cap, captured m = Some cap ->
    in_grid cap /\ cap <> from m /\ cap <> to m /\ is_Some (b !! fst cap) /\
    isEnemy player (cell b (fst cap) (snd cap)) = true.
Proof.
  intros [d Hd Hn Hj He Hrow Hfree | d Hd Hn Hrow Hfree Hmjf]; simpl;
    apply directions_unit in Hd as [Hdr Hdc].
  - split; [reflexivity|]. split; [exact Hj|].
    split; [intros [=]; lia|]. split; [exact Hrow|]. split; [exact Hfree|].
    intros cap [= <-]. simpl.
    split; [exact Hn|]. split; [intros [=]; lia|]. split; [intros [=]; lia|].
    split; [|exact He].
    apply isEnemy_Some in He as (v & Hv & _). eapply cell_row; eauto.
  - split; [reflexivity|]. split; [exact Hn|].
    split; [intros [=]; lia|]. split; [exact Hrow|]. split; [exact Hfree|].
    intros cap [=].
Qed.

Lemma getValidMoves_writes b row col mjf ms m :
  getValidMoves b row col mjf = Ok ms -> In m ms ->
  exists b3, writes_of b m b3.
Proof.
  intros Hrun Hin.
  destruct (getValidMoves_generated _ _ _ _ _ _ Hrun Hin) as (pc & Hc & Hpc & Hgen).
  destruct (generated_squares _ _ _ _ _ _ _ Hgen)
    as (Hfrom & Hto & Hne & Htrow & Hfree & Hcap).
  unfold writes_of. rewrite Hfrom. simpl.
  destruct (writeCell_ok b row col (Some 0) (cell_row _ _ _ _ Hc)) as [b1 H1].
  rewrite H1.
  assert (exists b2, match captured m with
                     | Some cap => writeCell b1 (fst cap) (snd cap) (Some 0)
                     | None => Ok b1
                     end = Ok b2 /\ is_Some (b2 !! fst (to m))) as (b2 & H2 & Hr2).
  { destruct (captured m) as [cap|].
    - destruct (Hcap cap eq_refl) as (_ & _ & _ & Hcrow & _).
      destruct (writeCell_ok b1 (fst cap) (snd cap) (Some 0)) as [b2 H2].
      { eapply writeCell_row; eauto. }
      exists b2. split; [assumption|].
      eapply writeCell_row; eauto. eapply writeCell_row; eauto.
    - exists b1. split; [reflexivity|]. eapply writeCell_row; eauto. }
  destruct (writeCell_ok b2 (fst (to m)) (snd (to m))
              (promote (cell b row col) (fst (to m))) Hr2) as [b3 H3].
  exists b3, b1, b2. auto.
Qed.

(** The cells after the three writes. *)
Lemma writes_of_cells b move b3 :
  writes_of b move b3 ->
  to move <> from move ->
  (forall cap, captured move = Some cap -> cap <> from move /\ cap <> to move) ->
  cell b3 (fst (to move)) (snd (to move)) =
    promote (cell b (fst (from move)) (snd (from move))) (fst (to move)) /\
  cell b3 (fst (from move)) (snd (from move)) = Some 0 /\
  (forall cap, captured move = Some cap -> cell b3 (fst cap) (snd cap) = Some 0) /\
  (forall r c, (r, c) <> from move -> (r, c) <> to move ->
               captured move <> Some (r, c) -> cell b3 r c = cell b r c).
Proof.
  intros (b1 & b2 & H1 & H2 & H3) Hne Hcap.
  destruct (from move) as [fr fc] eqn:Hf, (to move) as [tr tc] eqn:Ht.
  simpl in *.
  split; [eapply writeCell_same; eauto|].
  destruct (captured move) as [[cr cc]|] eqn:Hc; simpl in *.
  - destruct (Hcap _ eq_refl) as [Hcf Hct].
    split; [|split].
    + rewrite (writeCell_other _ _ _ _ _ fr fc H3) by congruence.
      rewrite (writeCell_other _ _ _ _ _ fr fc H2) by congruence.
      eapply writeCell_same; eauto.
    + intros cap [= <-]. simpl.
      rewrite (writeCell_other _ _ _ _ _ cr cc H3) by congruence.
      eapply writeCell_same; eauto.
    + intros r c Hrf Hrt Hrc.
      rewrite (writeCell_other _ _ _ _ _ r c H3) by congruence.
      rewrite (writeCell_other _ _ _ _ _ r c H2) by congruence.
      rewrite (writeCell_other _ _ _ _ _ r c H1) by congruence.
      reflexivity.
  - injection H2 as <-. split; [|split].
    + rewrite (writeCell_other _ _ _ _ _ fr fc H3) by congruence.
      eapply writeCell_same; eauto.
    + intros cap [=].
    + intros r c Hrf Hrt _.
      rewrite (writeCell_other _ _ _ _ _ r c H3) by congruence.
      rewrite (writeCell_other _ _ _ _ _ r c H1) by congruence.
      reflexivity.
Qed.

(** C8: a move produced by getValidMoves lands on a free square of the
    grid; applying it puts the moving piece there, and any cell that
    afterwards holds a piece it did not hold before is that destination,
    so no piece is written off the 8x8 grid and none onto another.  On a
    board with its eight rows, for a piece in one of them, applyMove
    runs to its end. *)
Theorem getValidMoves_applyMove_in_bounds gs row col mjf ms m :
  getValidMoves (board gs) row col mjf = Ok ms -> In m ms ->
  in_grid (to m) /\
  truthy (cell (board gs) (fst (to m)) (snd (to m))) = false /\
  cell (board (fst (applyMove m gs))) (fst (to m)) (snd (to m)) =
    promote (cell (board gs) row col) (fst (to m)) /\
  truthy (cell (board (fst (applyMove m gs))) (fst (to m)) (snd (to m))) = true /\
  (forall r c,
     truthy (cell (board (fst (applyMove m gs))) r c) = true ->
     cell (board (fst (applyMove m gs))) r c <> cell (board gs) r c ->
     (r, c) = to m /\ 0 <= r <= 7 /\ 0 <= c <= 7) /\
  (rows_ok (board gs) -> 0 <= row <= 7 -> snd (applyMove m gs) = Ok tt).
Proof.
  intros Hrun Hin.
  destruct (getValidMoves_generated _ _ _ _ _ _ Hrun Hin) as (pc & Hc & Hpc & Hgen).
  destruct (generated_squares _ _ _ _ _ _ _ Hgen)
    as (Hfrom & Hto & Hne & Htrow & Hfree & Hcap).
  destruct (getValidMoves_writes _ _ _ _ _ _ Hrun Hin) as [b3 Hw].
  rewrite (applyMove_board _ _ _ Hw).
  destruct (writes_of_cells _ _ _ Hw Hne) as (Hdest & Horig & Hcapd & Hrest).
  { intros cap Hc'. destruct (Hcap cap Hc') as (_ & ? & ? & _). auto. }
  rewrite Hfrom in Hdest. simpl in Hdest.
  split; [assumption|]. split; [assumption|]. split; [assumption|].
  split.
  { rewrite Hdest, Hc. unfold promote. simpl.
    destruct ((pc =? 1) && _); destruct ((pc =? 2) && _); simpl; try reflexivity;
      destruct (pc =? 0) eqn:E; try reflexivity; lia. }
  split.
  2:{ intros Hb Hrow.
      destruct (applyMove_complete m gs Hb) as (? & ? & ? & _ & _ & _ & _ & Happ).
      - now rewrite Hfrom.
      - apply Hto.
      - intros cap Hc'. destruct (Hcap cap Hc') as (Hg & _). apply Hg.
      - now rewrite Happ. }
  intros r c Htruthy Hchanged.
  destruct (decide ((r, c) = to m)) as [Heq|Hnt].
  { split; [assumption|]. rewrite <- Heq in Hto. exact Hto. }
  exfalso.
  destruct (decide ((r, c) = from m)) as [Heq|Hnf].
  { rewrite <- Heq in Horig. simpl in Horig. rewrite Horig in Htruthy.
    discriminate. }
  destruct (decide (captured m = Some (r, c))) as [Heq|Hnc].
  { pose proof (Hcapd _ Heq) as Hz. simpl in Hz. rewrite Hz in Htruthy.
    discriminate. }
  apply Hchanged. now apply Hrest.
Qed.

(* --------------------------------------------------------------------- *)
(*  Legal moves, applied                                                 *)
(* --------------------------------------------------------------------- *)

(** What membership in getAllValidMoves gives about a move. *)
Lemma legal_move_squares b player mjf valid m :
  getAllValidMoves b player mjf = Ok valid -> In m valid ->
  rows_ok b /\ in_grid (from m) /\ in_grid (to m) /\ to m <> from m /\
  (exists pc, cell b (fst (from m)) (snd (from m)) = Some pc /\ pc <> 0 /\
              playerOf pc = player) /\
  truthy (cell b (fst (to m)) (snd (to m))) = false /\
  forall cap, captured m = Some cap ->
    in_grid cap /\ cap <> from m /\ cap <> to m.
Proof.
  intros Hrun Hin.
  pose proof (getAllValidMoves_rows _ _ _ _ Hrun) as Hb.
  pose proof Hrun as Hrun'. unfold getAllValidMoves in Hrun'.
  apply res_bind_ok in Hrun' as (all & Hall & _).
  apply (getAllValidMoves_incl _ _ _ _ _ Hall Hrun) in Hin.
  destruct (collectAll_sound _ _ _ _ _ Hall Hin)
    as (r & c & ms & Hr & Hc & (pc & Hcell & Hpc & Hown & Hms) & Hin').
  destruct (getValidMoves_generated _ _ _ _ _ _ Hms Hin') as (pc' & Hc' & _ & Hgen).
  assert (pc' = pc) by congruence. subst pc'.
  destruct (generated_squares _ _ _ _ _ _ _ Hgen)
    as (Hfrom & Hto & Hne & _ & Hfree & Hcap).
  split; [assumption|]. rewrite Hfrom.
  split; [split; simpl; assumption|]. split; [assumption|].
  split; [congruence|]. split; [exists pc; auto|]. split; [assumption|].
  intros cap Hcp. destruct (Hcap cap Hcp) as (? & ? & ? & _).
  rewrite <- Hfrom. auto.
Qed.

Lemma legal_applyMove_complete gs valid move :
  getAllValidMoves (board gs) (currentTurn gs) (mustJumpFrom gs) = Ok valid ->
  In move valid ->
  exists b3 further allMoves,
    let piece := cell (board gs) (fst (from move)) (snd (from move)) in
    let go := continues move piece further in
    let turn := if go then currentTurn gs else otherPlayer (currentTurn gs) in
    let mjf := if go then Some (to move) else None in
    writes_of (board gs) move b3 /\ rows_ok b3 /\
    getValidMoves b3 (fst (to move)) (snd (to move)) (Some (to move)) = Ok further /\
    getAllValidMoves b3 turn mjf = Ok allMoves /\
    applyMove move gs =
      (mkGameState b3 turn
         (if Z.of_nat (length allMoves) =? 0
          then Some (otherPlayer turn) else winner gs)
         mjf,
       Ok tt).
Proof.
  intros Hrun Hin.
  destruct (legal_move_squares _ _ _ _ _ Hrun Hin)
    as (Hb & Hf & Ht & _ & _ & _ & Hcap).
  apply applyMove_complete; try assumption; try apply Hf; try apply Ht.
  intros cap Hc. apply (Hcap cap Hc).
Qed.

Lemma filter_capture_exists (ms : list Move) :
  (0 <? Z.of_nat (length (List.filter isCapture ms))) = true <->
  exists m, In m ms /\ isCapture m = true.
Proof.
  split.
  - destruct (List.filter isCapture ms) as [|m l] eqn:E;
      [intros H; apply Z.ltb_lt in H; simpl in H; lia|].
    intros _. exists m. apply filter_In. rewrite E. now left.
  - intros (m & Hin & Hcap). eapply filter_nonempty; eauto.
Qed.

(** C3, as the code has it: a legal capturing move is applied without an
    exception; it empties the origin and the captured square and puts the
    moving piece, promoted on the far rank, on the destination; if the
    piece did not promote on this move and has a further capture from the
    destination, the turn stays and mustJumpFrom is the destination;
    otherwise (so also whenever the piece has just promoted) the turn
    passes and mustJumpFrom is cleared. *)
Theorem applyMove_capture_continuation gs valid move cap :
  getAllValidMoves (board gs) (currentTurn gs) (mustJumpFrom gs) = Ok valid ->
  In move valid -> captured move = Some cap ->
  exists gs' further,
    let piece := cell (board gs) (fst (from move)) (snd (from move)) in
    let landed := promote piece (fst (to move)) in
    applyMove move gs = (gs', Ok tt) /\
    cell (board gs') (fst (from move)) (snd (from move)) = Some 0 /\
    cell (board gs') (fst cap) (snd cap) = Some 0 /\
    cell (board gs') (fst (to move)) (snd (to move)) = landed /\
    getValidMoves (board gs') (fst (to move)) (snd (to move)) (Some (to move))
      = Ok further /\
    ((landed = piece /\ exists m, In m further /\ isCapture m = true) ->
       currentTurn gs' = currentTurn gs /\ mustJumpFrom gs' = Some (to move)) /\
    (~ (landed = piece /\ exists m, In m further /\ isCapture m = true) ->
       currentTurn gs' = otherPlayer (currentTurn gs) /\ mustJumpFrom gs' = None).
Proof.
  intros Hrun Hin Hcap.
  destruct (legal_applyMove_complete _ _ _ Hrun Hin)
    as (b3 & further & allMoves & Hw & Hb3 & Hfur & Hall & Happ).
  destruct (legal_move_squares _ _ _ _ _ Hrun Hin)
    as (_ & _ & _ & Hne & _ & _ & Hcapsq).
  destruct (writes_of_cells _ _ _ Hw Hne) as (Hdest & Horig & Hcapd & _).
  { intros c Hc. destruct (Hcapsq c Hc) as (_ & ? & ?). auto. }
  eexists; exists further. cbv zeta.
  split; [exact Happ|]. simpl.
  split; [exact Horig|]. split; [exact (Hcapd cap Hcap)|].
  split; [exact Hdest|]. split; [exact Hfur|].
  set (piece := cell (board gs) (fst (from move)) (snd (from move))) in *.
  assert (Hgo : continues move piece further = true <->
                (promote piece (fst (to move)) = piece /\
                 exists m, In m further /\ isCapture m = true)).
  { unfold continues, isCapture, same_value. rewrite Hcap. simpl.
    rewrite andb_true_iff, bool_decide_eq_true, filter_capture_exists.
    reflexivity. }
  split.
  - intros H. apply Hgo in H. rewrite H. auto.
  - intros H. destruct (continues move piece further); [|auto].
    exfalso. apply H, Hgo. reflexivity.
Qed.

(* --------------------------------------------------------------------- *)
(*  Win detection                                                        *)
(* --------------------------------------------------------------------- *)

(** Whenever applyMove runs to its end, its last step looked at the moves
    of the player to move in the final position. *)
Lemma applyMove_winner move gs gs' :
  applyMove move gs = (gs', Ok tt) ->
  exists allMoves,
    getAllValidMoves (board gs') (currentTurn gs') (mustJumpFrom gs') = Ok allMoves /\
    winner gs' = if Z.of_nat (length allMoves) =? 0
                 then Some (otherPlayer (currentTurn gs')) else winner gs.
Proof.
  unfold applyMove. run_monad. intros H.
  repeat (case_match; simpl in *; try discriminate).
  all: simplify_eq/=; eexists; (split; [eassumption|]).
  all: match goal with H : (_ =? 0) = _ |- _ => rewrite H end; reflexivity.
Qed.

(* --------------------------------------------------------------------- *)
(*  The makeMove handler                                                 *)
(* --------------------------------------------------------------------- *)

(** makeMove writes at most the room the socket points to. *)
Lemma makeMove_other_room socket move (rooms : gmap string Room) k :
  k <> keyOf (roomId socket) ->
  fst (makeMove socket move rooms) !! k = rooms !! k.
Proof.
  intros Hk. unfold makeMove.
  repeat (case_match; simpl; try reflexivity);
    rewrite lookup_insert_ne; congruence.
Qed.

Lemma makeMove_finished socket move (rooms : gmap string Room) room gs :
  rooms !! keyOf (roomId socket) = Some room ->
  gameState room = Some gs -> truthy (winner gs) = true ->
  makeMove socket move rooms = (rooms, []).
Proof.
  intros Hroom Hgs Hwin. unfold makeMove. now rewrite Hroom, Hgs, Hwin.
Qed.

Lemma existsb_sameSquares valid move :
  existsb (fun m => sameSquares m move) valid = true <->
  exists m, In m valid /\ from m = from move /\ to m = to move.
Proof.
  rewrite existsb_exists. unfold sameSquares.
  split; intros (m & Hin & H); exists m; (split; [assumption|]).
  - destruct (from m), (from move), (to m), (to move); simpl in *.
    repeat (apply andb_prop in H as [H ?]).
    split; f_equal; lia.
  - destruct H as [-> ->]. rewrite !Z.eqb_refl. reflexivity.
Qed.

(** C2, as the code has it: makeMove leaves the registry unchanged when
    the socket's room does not exist or has no game state, when the game
    has a winner, when the socket is not the player to move, and when no
    move of getAllValidMoves for the position and its mustJumpFrom has
    the origin and destination of the submitted move. *)
Theorem makeMove_rejected_unchanged socket move (rooms : gmap string Room) :
  (rooms !! keyOf (roomId socket) = None \/
   exists room, rooms !! keyOf (roomId socket) = Some room /\
     (gameState room = None \/
      exists gs, gameState room = Some gs /\
        (truthy (winner gs) = true \/
         playerIndex socket <> Some (currentTurn gs) \/
         forall valid,
           getAllValidMoves (board gs) (currentTurn gs) (mustJumpFrom gs) = Ok valid ->
           forall m, In m valid -> ~ (from m = from move /\ to m = to move)))) ->
  fst (makeMove socket move rooms) = rooms.
Proof.
  unfold makeMove.
  intros [->|(room & -> & [->|(gs & -> & H)])]; try reflexivity.
  destruct (truthy (winner gs)) eqn:Hwin; [reflexivity|].
  destruct (playerIndex socket) as [idx|] eqn:Hidx; [|reflexivity].
  destruct (currentTurn gs =? idx) eqn:Hturn; simpl; [|reflexivity].
  apply Z.eqb_eq in Hturn. subst idx.
  destruct H as [H|[H|H]]; [discriminate|congruence|].
  destruct (getAllValidMoves _ _ _) as [valid|e] eqn:Hvalid; [|reflexivity].
  destruct (existsb _ valid) eqn:Hex; [|reflexivity].
  exfalso. apply existsb_sameSquares in Hex as (m & Hin & Hsq).
  exact (H valid eq_refl m Hin Hsq).
Qed.

(** C4: a legal move is applied without an exception; whenever applyMove
    runs to its end and the player then to move has no legal move, winner
    is the other player; and once a room's game has a winner, no sequence
    of makeMove submissions, from whatever sockets, changes that room. *)
Theorem applyMove_win_detection :
  (forall gs valid move,
     getAllValidMoves (board gs) (currentTurn gs) (mustJumpFrom gs) = Ok valid ->
     In move valid -> exists gs', applyMove move gs = (gs', Ok tt)) /\
  (forall gs move gs',
     applyMove move gs = (gs', Ok tt) ->
     getAllValidMoves (board gs') (currentTurn gs') (mustJumpFrom gs') = Ok [] ->
     winner gs' = Some (otherPlayer (currentTurn gs')) /\
     otherPlayer (currentTurn gs') <> currentTurn gs' /\
     truthy (winner gs') = true) /\
  (forall (rooms : gmap string Room) k room gs (subs : list (Socket * Move)),
     rooms !! k = Some room -> gameState room = Some gs ->
     truthy (winner gs) = true ->
     foldl (fun rs sm => fst (makeMove (fst sm) (snd sm) rs)) rooms subs !! k
       = Some room).
Proof.
  split; [|split].
  - intros gs valid move Hrun Hin.
    destruct (legal_applyMove_complete _ _ _ Hrun Hin)
      as (b3 & further & allMoves & _ & _ & _ & _ & Happ).
    eexists. exact Happ.
  - intros gs move gs' Happ Hnone.
    destruct (applyMove_winner _ _ _ Happ) as (allMoves & Hall & Hw).
    rewrite Hall in Hnone. injection Hnone as ->. simpl in Hw.
    rewrite Hw. unfold otherPlayer.
    destruct (currentTurn gs' =? 1) eqn:E; repeat split; simpl; try lia.
  - intros rooms k room gs subs. revert rooms.
    induction subs as [|[socket move] subs IH]; intros rooms Hroom Hgs Hwin;
      simpl; [assumption|].
    apply IH; try assumption.
    destruct (decide (k = keyOf (roomId socket))) as [->|Hne].
    + now rewrite (makeMove_finished _ _ _ _ _ Hroom Hgs Hwin).
    + now rewrite makeMove_other_room.
Qed.

(* --------------------------------------------------------------------- *)
(*  The start position                                                   *)
(* --------------------------------------------------------------------- *)

Lemma createInitialBoard_cells r c :
  0 <= r <= 7 -> 0 <= c <= 7 ->
  cell createInitialBoard r c = Some (startCell r c).
Proof.
  intros Hr%in_seqZ_0_8 Hc%in_seqZ_0_8.
  vm_compute in Hr, Hc.
  repeat (destruct Hr as [<-|Hr]; [
    repeat (destruct Hc as [<-|Hc]; [vm_compute; reflexivity|]);
    destruct Hc|]); destruct Hr.
Qed.

Lemma createInitialBoard_dom :
  dom createInitialBoard = list_to_set (seqZ 0 8).
Proof. vm_compute. reflexivity. Qed.

(** Eight rows of eight columns and nothing else. *)
Lemma createInitialBoard_shape :
  dom createInitialBoard = list_to_set (seqZ 0 8) /\
  forall r cells, createInitialBoard !! r = Some cells ->
                  dom cells = list_to_set (seqZ 0 8).
Proof.
  split; [exact createInitialBoard_dom|].
  intros r cells H.
  assert (Hr : In r (seqZ 0 8)).
  { assert (Hin : r ∈ dom createInitialBoard) by (apply elem_of_dom; eauto).
    rewrite createInitialBoard_dom, elem_of_list_to_set in Hin.
    now apply list_elem_of_In. }
  vm_compute in Hr.
  repeat (destruct Hr as [<-|Hr];
          [vm_compute in H; injection H as <-; vm_compute; reflexivity|]).
  destruct Hr.
Qed.

Lemma createInitialBoard_rows_ok : rows_ok createInitialBoard.
Proof.
  intros r Hr%in_seqZ_0_8. vm_compute in Hr.
  repeat (destruct Hr as [<-|Hr]; [vm_compute; eauto|]). destruct Hr.
Qed.

(* --------------------------------------------------------------------- *)
(*  Rematch votes                                                        *)
(* --------------------------------------------------------------------- *)

(** C5: when the vote of [socket] brings the vote set of its room to two,
    processRematchVote reaches its suspension point with the room holding
    a fresh game state and an empty vote set; that is also the next state
    of the server, so no state with only one of the two is ever seen by
    another handler; the resumed part writes nothing.  The fresh state is
    the start layout: twelve men of player 2 on rows 0..2, twelve men of
    player 1 on rows 5..7, no kings, forty empty cells, player 1 to move,
    no winner, no forced continuation. *)
Theorem processRematchVote_reset socket (rooms : gmap string Room) room :
  rooms !! keyOf (roomId socket) = Some room ->
  (2 <= size ({[id socket]} ∪ rematchVotes room))%nat ->
  let fresh := mkRoom (players room) (Some createGameState) ∅ in
  (exists out k,
     processRematchVote socket rooms =
       (<[keyOf (roomId socket) := fresh]> rooms, out, Ok (Some k)) /\
     forall rm rs, fst (resumeRematch k rm rs) = rs) /\
  (forall s, srv_rooms s = rooms -> srv_sockets s !! id socket = Some socket ->
     srv_rooms (step s (RematchVoteMsg (id socket))) !! keyOf (roomId socket)
       = Some fresh) /\
  (currentTurn createGameState = 1 /\ winner createGameState = None /\
   mustJumpFrom createGameState = None /\
   (forall r c, 0 <= r <= 7 -> 0 <= c <= 7 ->
      cell (board createGameState) r c = Some (startCell r c)) /\
   countCells (fun v => is_num v 1) (board createGameState) = 12%nat /\
   countCells (fun v => is_num v 2) (board createGameState) = 12%nat /\
   countCells truthy (board createGameState) = 24%nat /\
   countCells (fun v => is_num v 0) (board createGameState) = 40%nat).
Proof.
  intros Hroom Hsize fresh.
  assert (Hrun : processRematchVote socket rooms =
            (<[keyOf (roomId socket) := fresh]> rooms,
             [Emit (ToRoom (roomId socket)) "rematchVoteUpdate"
                   (Votes (size ({[id socket]} ∪ rematchVotes room)))],
             Ok (Some (Suspend 300 (keyOf (roomId socket)))))).
  { unfold processRematchVote. rewrite Hroom. unfold addVote.
    cbn [rematchVotes]. destruct (Nat.leb 2 _) eqn:E; [reflexivity|].
    apply Nat.leb_gt in E. lia. }
  split; [|split].
  - do 2 eexists. split; [exact Hrun|]. reflexivity.
  - intros s Hs Hsock. simpl. rewrite Hsock, Hs, Hrun. simpl.
    apply lookup_insert_eq.
  - split; [reflexivity|]. split; [reflexivity|]. split; [reflexivity|].
    split; [exact createInitialBoard_cells|].
    repeat split; vm_compute; reflexivity.
Qed.

(** C7, as the code has it: processRematchVote does not look at the
    outcome.  Whatever the game state of the room, in progress or
    finished, the vote is added; below two votes the room keeps its game
    state, and at two the game is reset and the votes are cleared. *)
Theorem processRematchVote_any_outcome socket (rooms : gmap string Room) room :
  rooms !! keyOf (roomId socket) = Some room ->
  let votes := {[id socket]} ∪ rematchVotes room in
  fst (fst (processRematchVote socket rooms)) !! keyOf (roomId socket) =
    Some (if (2 <=? size votes)%nat
          then mkRoom (players room) (Some createGameState) ∅
          else mkRoom (players room) (gameState room) votes) /\
  id socket ∈ votes.
Proof.
  intros Hroom votes. split; [|set_solver].
  unfold processRematchVote. rewrite Hroom. unfold addVote.
  cbn [rematchVotes]. fold votes.
  destruct (Nat.leb 2 (size votes)); simpl; apply lookup_insert_eq.
Qed.

(* --------------------------------------------------------------------- *)
(*  Joining and creating rooms                                           *)
(* --------------------------------------------------------------------- *)

(** C9, at a token the registry object inherits.  joinRoom's answer to
    a token without a room is the "Room not found" it throws behind
    [if (!room)].  No room is registered under
    "constructor", "__proto__" or "toString", in a registry with a room
    as in an empty one, yet joinRoom does not throw "Room not found"
    there: [rooms[roomId]] is the inherited value, the check lets it
    pass, and [room.players.length] throws a TypeError.  A token that is
    not inherited and has no room gets "Room not found", and the server
    state is unchanged in both cases. *)
Theorem joinRoom_inherited_token_TypeError :
  let socket := mkSocket "c" None None in
  let s := mkServer startedRooms {[ "c"%string := socket ]} in
  startedRooms !! "constructor"%string = None /\
  joinRoom socket (Some "constructor"%string) startedRooms = Throw TypeError /\
  joinRoom socket (Some "__proto__"%string) startedRooms = Throw TypeError /\
  joinRoom socket (Some "toString"%string) ∅ = Throw TypeError /\
  joinRoom socket (Some "constructor"%string) startedRooms
    <> Throw (Error "Room not found") /\
  joinRoom socket (Some "NOROOM"%string) startedRooms
    = Throw (Error "Room not found") /\
  step s (JoinRoomMsg "c" (Some "constructor"%string)) = s /\
  step s (JoinRoomMsg "c" (Some "NOROOM"%string)) = s.
Proof.
  cbv zeta.
  split; [vm_compute; reflexivity|].
  split; [vm_compute; reflexivity|].
  split; [vm_compute; reflexivity|].
  split; [vm_compute; reflexivity|].
  split; [vm_compute; discriminate|].
  split; [vm_compute; reflexivity|].
  split; vm_compute; reflexivity.
Qed.

(** C6, as the code has it: the registry never holds two rooms under one
    token, after any sequence of events; createRoom takes the one token
    generateRoomId gives it and stores the new room there without looking
    whether the token is in use, leaving the rooms under every other
    token as they are; a disconnect of a socket of the room frees its
    token. *)
Theorem createRoom_registers :
  (forall es, NoDup (tokens (run initialServer es))) /\
  (forall rnd socket (rooms : gmap string Room),
     let rid := generateRoomId rnd in
     createRoom rnd socket rooms =
       (<[rid := mkRoom [id socket] None ∅]> rooms,
        mkSocket (id socket) (Some rid) (Some 1), rid) /\
     fst (fst (createRoom rnd socket rooms)) !! rid
       = Some (mkRoom [id socket] None ∅) /\
     (forall k, k <> rid ->
        fst (fst (createRoom rnd socket rooms)) !! k = rooms !! k)) /\
  (forall socket rid (rooms : gmap string Room),
     roomId socket = Some rid -> rid <> ""%string ->
     fst (disconnect socket rooms) !! rid = None).
Proof.
  split; [|split].
  - intros es. apply NoDup_fst_map_to_list.
  - intros rnd socket rooms rid. unfold createRoom. fold rid. simpl.
    split; [reflexivity|]. split; [apply lookup_insert_eq|].
    intros k Hk. now apply lookup_insert_ne.
  - intros socket rid rooms Hrid Hne. unfold disconnect. rewrite Hrid.
    destruct (String.eqb rid "") eqn:E; [apply String.eqb_eq in E; contradiction|].
    simpl. destruct (bool_decide _) eqn:Hb; simpl.
    + apply lookup_delete_eq.
    + apply bool_decide_eq_false in Hb.
      destruct (rooms !! rid) eqn:Hr; [|reflexivity].
      exfalso. apply Hb. eauto.
Qed.

(* ===================================================================== *)
(*  Concrete positions                                                   *)
(* ===================================================================== *)

Lemma rows_ok_check b :
  forallb (fun r => bool_decide (is_Some (b !! r))) (seqZ 0 8) = true ->
  rows_ok b.
Proof.
  intros H r Hr%in_seqZ_0_8. rewrite forallb_forall in H.
  apply H in Hr. now apply bool_decide_eq_true in Hr.
Qed.

Lemma multiJump_rows_ok : rows_ok multiJump.
Proof. apply rows_ok_check. vm_compute. reflexivity. Qed.

(* --------------------------------------------------------------------- *)
(*  Where the code departs from a stated property                        *)
(* --------------------------------------------------------------------- *)

(** C2 as stated fails: a submitted move that is no member of
    getAllValidMoves, because its captured field is made up, but that has
    the origin and destination of a legal step, changes the room. *)
Lemma makeMove_forged_capture_changes_state :
  let move := mkMove (5, 0) (4, 1) (Some (2, 1)) in
  let gs := createGameState in
  startedRooms !! keyOf (roomId socketA)
    = Some (mkRoom ["a"; "b"]%string (Some gs) ∅) /\
  winner gs = None /\ playerIndex socketA = Some (currentTurn gs) /\
  (exists valid,
     getAllValidMoves (board gs) (currentTurn gs) (mustJumpFrom gs) = Ok valid /\
     ~ In move valid) /\
  fst (makeMove socketA move startedRooms) <> startedRooms.
Proof.
  split; [vm_compute; reflexivity|].
  split; [reflexivity|]. split; [reflexivity|]. split.
  - eexists. split; [vm_compute; reflexivity|].
    simpl. intuition discriminate.
  - intros Heq.
    apply (f_equal (fun rs : gmap string Room =>
             gameOf rs "ABC123" ≫= (fun gs => cell (board gs) 2 1))) in Heq.
    vm_compute in Heq. discriminate.
Qed.

(** C3 as stated fails: a man that jumps onto the far rank becomes a king
    that has a further jump from there, and yet the turn passes and
    mustJumpFrom is cleared. *)
Lemma applyMove_promotion_passes_turn :
  let gs := inPlay jumpToKing in
  let move := mkMove (2, 1) (0, 3) (Some (1, 2)) in
  let gs' := fst (applyMove move gs) in
  getAllValidMoves (board gs) (currentTurn gs) (mustJumpFrom gs) = Ok [move] /\
  snd (applyMove move gs) = Ok tt /\
  cell (board gs) 2 1 = Some 1 /\ cell (board gs') 0 3 = Some 3 /\
  getValidMoves (board gs') 0 3 (Some (0, 3))
    = Ok [mkMove (0, 3) (2, 5) (Some (1, 4))] /\
  ~ (currentTurn gs' = currentTurn gs /\ mustJumpFrom gs' = Some (0, 3)) /\
  currentTurn gs' = 2 /\ mustJumpFrom gs' = None.
Proof.
  cbv zeta. repeat split; try (vm_compute; reflexivity).
  vm_compute. intros [H _]. discriminate.
Qed.

(** C6 as stated fails: when generateRoomId gives the token of an open
    room, createRoom returns that token and puts the new room in the
    place of the open one; there is no second draw.  The two players of
    the replaced room still point to the token. *)
Lemma createRoom_collision_overwrites :
  let rnd := "0.abc123xyz"%string in
  let socketC := mkSocket "c" None None in
  let s := run initialServer
             [Connection "a"; CreateRoomMsg "a" rnd;
              Connection "b"; JoinRoomMsg "b" (Some "ABC123"%string);
              Connection "c"; CreateRoomMsg "c" rnd] in
  generateRoomId rnd = "ABC123"%string /\
  startedRooms !! "ABC123"%string
    = Some (mkRoom ["a"; "b"]%string (Some createGameState) ∅) /\
  snd (createRoom rnd socketC startedRooms) = "ABC123"%string /\
  fst (fst (createRoom rnd socketC startedRooms)) !! "ABC123"%string
    = Some (mkRoom ["c"]%string None ∅) /\
  srv_rooms s !! "ABC123"%string = Some (mkRoom ["c"]%string None ∅) /\
  roomId <$> srv_sockets s !! "a"%string = Some (Some "ABC123"%string) /\
  roomId <$> srv_sockets s !! "b"%string = Some (Some "ABC123"%string).
Proof.
  cbv zeta. repeat split; vm_compute; reflexivity.
Qed.

(** C7 as stated fails: in a game that is in progress a vote is counted,
    and two votes reset a game in the middle of play. *)
Lemma processRematchVote_in_progress_counts :
  let s := run (mkServer startedRooms
                  {[ "a"%string := socketA; "b"%string := socketB ]})
             [MakeMoveMsg "a" (mkMove (5, 0) (4, 1) None)] in
  let s' := run s [RematchVoteMsg "a"; RematchVoteMsg "b"] in
  winner createGameState = None /\
  fst (fst (processRematchVote socketA startedRooms)) !! "ABC123"%string
    = Some (mkRoom ["a"; "b"]%string (Some createGameState) {[ "a"%string ]}) /\
  fst (fst (processRematchVote socketA startedRooms)) <> startedRooms /\
  (gameOf (srv_rooms s) "ABC123" ≫= winner) = None /\
  (gameOf (srv_rooms s) "ABC123" ≫= (fun gs => cell (board gs) 4 1)) = Some 1 /\
  srv_rooms s' !! "ABC123"%string
    = Some (mkRoom ["a"; "b"]%string (Some createGameState) ∅).
Proof.
  cbv zeta. repeat split; try (vm_compute; reflexivity).
  intros Heq.
  apply (f_equal (fun rs : gmap string Room =>
           size <$> (rematchVotes <$> rs !! "ABC123"%string))) in Heq.
  vm_compute in Heq. discriminate.
Qed.

(** C10 fails on the code: makeMove compares origin and destination only
    and then applies the object the client sent.  From the start position
    the step (5,0) to (4,1) is legal and captures nothing.  Sent with a
    captured field of (2,1), it removes the man of player 2 there; with
    (0,9), it writes a cell off the grid; with (8,0), applyMove throws
    after it emptied the origin, so the moving man is gone and the turn
    has not passed. *)
Theorem makeMove_applies_client_captured :
  let legal := mkMove (5, 0) (4, 1) None in
  let sent := fun cap =>
    gameOf (fst (makeMove socketA (mkMove (5, 0) (4, 1) cap) startedRooms))
           "ABC123" in
  let after := fun cap r c => sent cap ≫= (fun gs => cell (board gs) r c) in
  let pieces := fun cap => (fun gs => countCells truthy (board gs)) <$> sent cap in
  (exists valid,
     getAllValidMoves createInitialBoard 1 None = Ok valid /\ In legal valid /\
     (forall m, In m valid -> from m = (5, 0) -> to m = (4, 1) -> m = legal) /\
     forall cap, existsb (fun m => sameSquares m (mkMove (5, 0) (4, 1) cap)) valid
                 = true) /\
  (after None 2 1 = Some 2 /\ pieces None = Some 24%nat) /\
  (after (Some (2, 1)) 2 1 = Some 0 /\ pieces (Some (2, 1)) = Some 23%nat) /\
  (cell createInitialBoard 0 9 = None /\ after (Some (0, 9)) 0 9 = Some 0) /\
  (snd (makeMove socketA (mkMove (5, 0) (4, 1) (Some (8, 0))) startedRooms)
     = [Emit (ToSocket "a") "error" (Failure TypeError)] /\
   after (Some (8, 0)) 5 0 = Some 0 /\ after (Some (8, 0)) 4 1 = Some 0 /\
   pieces (Some (8, 0)) = Some 23%nat /\
   currentTurn <$> sent (Some (8, 0)) = Some 1).
Proof.
  cbv zeta. split.
  - eexists. split; [vm_compute; reflexivity|].
    split; [simpl; auto|]. split.
    + intros m Hin Hf Ht. simpl in Hin.
      repeat (destruct Hin as [<-|Hin]; [first [reflexivity|discriminate]|]).
      destruct Hin.
    + intros cap. destruct cap; reflexivity.
  - repeat split; vm_compute; reflexivity.
Qed.

(* ===================================================================== *)
(*  The theorems at concrete inputs                                      *)
(* ===================================================================== *)

Lemma getAllValidMoves_mandatory_capture_witness :
  exists valid,
    getAllValidMoves multiJump 1 None = Ok valid /\
    forall m, In m valid -> isCapture m = true.
Proof.
  destruct (getAllValidMoves_mandatory_capture multiJump 1 None) as [Htot Hprop].
  destruct (Htot multiJump_rows_ok) as [valid Hv].
  exists valid. split; [exact Hv|].
  destruct (Hprop valid Hv) as [_ Havail].
  apply (Havail None 5 2 [mkMove (5, 2) (3, 4) (Some (4, 3))]
                (mkMove (5, 2) (3, 4) (Some (4, 3)))).
  - lia.
  - lia.
  - exists 1. repeat split; try (vm_compute; reflexivity). lia.
  - now left.
  - reflexivity.
Defined.

Lemma makeMove_rejected_unchanged_witness :
  fst (makeMove socketB (mkMove (2, 1) (3, 0) None) startedRooms) = startedRooms.
Proof.
  apply (makeMove_rejected_unchanged socketB (mkMove (2, 1) (3, 0) None)
           startedRooms).
  right. exists (mkRoom ["a"; "b"]%string (Some createGameState) ∅).
  split; [vm_compute; reflexivity|].
  right. exists createGameState. split; [reflexivity|].
  right. left. simpl. discriminate.
Defined.

Lemma applyMove_capture_continuation_witness :
  exists gs' further,
    applyMove (mkMove (5, 2) (3, 4) (Some (4, 3))) (inPlay multiJump)
      = (gs', Ok tt) /\
    getValidMoves (board gs') 3 4 (Some (3, 4)) = Ok further /\
    currentTurn gs' = 1 /\ mustJumpFrom gs' = Some (3, 4).
Proof.
  destruct (applyMove_capture_continuation (inPlay multiJump)
              [mkMove (5, 2) (3, 4) (Some (4, 3))]
              (mkMove (5, 2) (3, 4) (Some (4, 3))) (4, 3))
    as (gs' & further & Happ & _ & _ & _ & Hfur & Hgo & _).
  - vm_compute. reflexivity.
  - now left.
  - reflexivity.
  - exists gs', further. split; [exact Happ|]. split; [exact Hfur|].
    apply Hgo. split; [vm_compute; reflexivity|].
    exists (mkMove (3, 4) (1, 6) (Some (2, 5))). split; [|reflexivity].
    assert (Hgs : gs' = fst (applyMove (mkMove (5, 2) (3, 4) (Some (4, 3)))
                              (inPlay multiJump))) by (now rewrite Happ).
    rewrite Hgs in Hfur. vm_compute in Hfur. injection Hfur as <-. now left.
Defined.

Lemma applyMove_win_detection_witness :
  let move := mkMove (5, 2) (3, 4) (Some (4, 3)) in
  let gs' := fst (applyMove move (inPlay lastMan)) in
  currentTurn gs' = 2 /\ winner gs' = Some 1 /\
  fst (makeMove socketB (mkMove (2, 1) (3, 0) None)
         {[ "ABC123"%string := mkRoom ["a"; "b"]%string (Some gs') ∅ ]})
    !! "ABC123"%string
  = Some (mkRoom ["a"; "b"]%string (Some gs') ∅).
Proof.
  cbv zeta.
  destruct applyMove_win_detection as (_ & Hwin & Hstop).
  set (gs' := fst (applyMove (mkMove (5, 2) (3, 4) (Some (4, 3))) (inPlay lastMan))).
  destruct (Hwin (inPlay lastMan) (mkMove (5, 2) (3, 4) (Some (4, 3))) gs')
    as (Hw & _ & Ht).
  - vm_compute. reflexivity.
  - vm_compute. reflexivity.
  - split; [vm_compute; reflexivity|]. split; [rewrite Hw; vm_compute; reflexivity|].
    apply (Hstop {[ "ABC123"%string := mkRoom ["a"; "b"]%string (Some gs') ∅ ]}
                 "ABC123"%string (mkRoom ["a"; "b"]%string (Some gs') ∅) gs'
                 [(socketB, mkMove (2, 1) (3, 0) None)]).
    + apply lookup_singleton_eq.
    + reflexivity.
    + exact Ht.
Defined.

Lemma processRematchVote_reset_witness :
  let room := mkRoom ["a"; "b"]%string (Some (inPlay lastMan)) {[ "b"%string ]} in
  exists out k,
    processRematchVote socketA {[ "ABC123"%string := room ]}
    = (<[ "ABC123"%string := mkRoom ["a"; "b"]%string (Some createGameState) ∅ ]>
         {[ "ABC123"%string := room ]}, out, Ok (Some k)).
Proof.
  cbv zeta.
  destruct (processRematchVote_reset socketA
              {[ "ABC123"%string :=
                   mkRoom ["a"; "b"]%string (Some (inPlay lastMan)) {[ "b"%string ]} ]}
              (mkRoom ["a"; "b"]%string (Some (inPlay lastMan)) {[ "b"%string ]}))
    as ((out & k & Hrun & _) & _ & _).
  - apply lookup_singleton_eq.
  - vm_compute. lia.
  - exists out, k. exact Hrun.
Defined.

Lemma processRematchVote_any_outcome_witness :
  fst (fst (processRematchVote socketA startedRooms)) !! "ABC123"%string
  = Some (mkRoom ["a"; "b"]%string (Some createGameState)
                 ({[ "a"%string ]} ∪ ∅)).
Proof.
  destruct (processRematchVote_any_outcome socketA startedRooms
              (mkRoom ["a"; "b"]%string (Some createGameState) ∅)) as [H _].
  - apply lookup_singleton_eq.
  - exact H.
Defined.

Lemma getValidMoves_applyMove_in_bounds_witness :
  let m := mkMove (5, 0) (4, 1) None in
  in_grid (to m) /\
  truthy (cell createInitialBoard 4 1) = false /\
  truthy (cell (board (fst (applyMove m createGameState))) 4 1) = true.
Proof.
  cbv zeta.
  destruct (getValidMoves_applyMove_in_bounds createGameState 5 0 None
              [mkMove (5, 0) (4, 1) None] (mkMove (5, 0) (4, 1) None))
    as (Hgrid & Hfree & _ & Hput & _ & _).
  - vm_compute. reflexivity.
  - now left.
  - split; [exact Hgrid|]. split; [exact Hfree|exact Hput].
Defined.

Lemma createRoom_registers_witness :
  fst (fst (createRoom "0.4fzyo82mvyr" (mkSocket "a" None None) ∅))
    !! "4FZYO8"%string
  = Some (mkRoom ["a"]%string None ∅) /\
  fst (disconnect socketA startedRooms) !! "ABC123"%string = None.
Proof.
  destruct createRoom_registers as (_ & Hcreate & Hfree).
  split.
  - destruct (Hcreate "0.4fzyo82mvyr"%string (mkSocket "a" None None) ∅)
      as (_ & H & _).
    exact H.
  - apply (Hfree socketA "ABC123"%string startedRooms).
    + reflexivity.
    + discriminate.
Defined.

(* ===================================================================== *)
(*  Further properties of the rules engine                               *)
(* ===================================================================== *)

(** A legal move together with the piece that makes it. *)
Lemma legal_generated b player mjf valid m :
  getAllValidMoves b player mjf = Ok valid -> In m valid ->
  exists pc ms,
    in_grid (from m) /\
    cell b (fst (from m)) (snd (from m)) = Some pc /\ pc <> 0 /\
    playerOf pc = player /\
    getValidMoves b (fst (from m)) (snd (from m)) mjf = Ok ms /\ In m ms /\
    generated b (fst (from m)) (snd (from m)) mjf player (isKing pc) m.
Proof.
  intros Hrun Hin.
  pose proof Hrun as Hrun'. unfold getAllValidMoves in Hrun'.
  apply res_bind_ok in Hrun' as (all & Hall & _).
  apply (getAllValidMoves_incl _ _ _ _ _ Hall Hrun) in Hin.
  destruct (collectAll_sound _ _ _ _ _ Hall Hin)
    as (r & c & ms & Hr & Hc & (pc & Hcell & Hpc & Hown & Hms) & Hin').
  destruct (getValidMoves_generated _ _ _ _ _ _ Hms Hin') as (pc' & Hc' & _ & Hgen).
  assert (pc' = pc) by congruence. subst pc'.
  destruct (generated_squares _ _ _ _ _ _ _ Hgen) as (Hfrom & _).
  rewrite Hfrom. simpl. exists pc, ms.
  split; [split; simpl; assumption|]. rewrite Hown in Hgen. auto 10.
Qed.

Lemma playerOf_cases pc : playerOf pc = 1 \/ playerOf pc = 2.
Proof. unfold playerOf. destruct (_ || _); auto. Qed.

Lemma playerOf_1 pc : playerOf pc = 1 <-> pc = 1 \/ pc = 3.
Proof.
  unfold playerOf. destruct (pc =? 1) eqn:E1, (pc =? 3) eqn:E3; simpl; lia.
Qed.

Lemma directions_man player d :
  In d (directions player false) ->
  (player = 1 -> fst d = -1) /\ (player = 2 -> fst d = 1).
Proof.
  unfold directions. rewrite in_app_iff, !orb_false_r.
  destruct (player =? 1) eqn:E1, (player =? 2) eqn:E2; simpl;
    intros H; repeat (destruct H as [<-|H] || destruct H as [H|H] || destruct H);
    simpl; lia.
Qed.

Lemma isEnemy_other player target :
  isEnemy player target = true ->
  exists v, target = Some v /\
    ((player = 1 /\ (v = 2 \/ v = 4)) \/ (player = 2 /\ (v = 1 \/ v = 3))).
Proof.
  unfold isEnemy, is_num. destruct target as [v|]; simpl; [|discriminate].
  intros H. exists v. split; [reflexivity|].
  destruct (player =? 1) eqn:E1, (player =? 2) eqn:E2,
           (v =? 1) eqn:V1, (v =? 2) eqn:V2, (v =? 3) eqn:V3, (v =? 4) eqn:V4;
    simpl in H; try rewrite andb_false_r in H; try discriminate; lia.
Qed.

Lemma legal_move_geometry b player mjf valid m :
  getAllValidMoves b player mjf = Ok valid -> In m valid ->
  exists pc dr dc,
    let fr := fst (from m) in
    let fc := snd (from m) in
    in_grid (from m) /\ in_grid (to m) /\
    cell b fr fc = Some pc /\ pc <> 0 /\ playerOf pc = player /\
    (player = 1 \/ player = 2) /\
    (dr = -1 \/ dr = 1) /\ (dc = -1 \/ dc = 1) /\
    (isKing pc = false -> player = 1 -> dr = -1) /\
    (isKing pc = false -> player = 2 -> dr = 1) /\
    truthy (cell b (fst (to m)) (snd (to m))) = false /\
    ((captured m = None /\ to m = (fr + dr, fc + dc) /\ mjf = None) \/
     (captured m = Some (fr + dr, fc + dc) /\
      to m = (fr + 2 * dr, fc + 2 * dc) /\
      exists v, cell b (fr + dr) (fc + dc) = Some v /\
                ((player = 1 /\ (v = 2 \/ v = 4)) \/
                 (player = 2 /\ (v = 1 \/ v = 3))))).
Proof.
  intros Hrun Hin.
  destruct (legal_generated _ _ _ _ _ Hrun Hin)
    as (pc & ms & Hf & Hcell & Hpc & Hown & _ & _ & Hgen).
  assert (Hdir : forall d, In d (directions player (isKing pc)) ->
            (fst d = -1 \/ fst d = 1) /\ (snd d = -1 \/ snd d = 1) /\
            (isKing pc = false -> player = 1 -> fst d = -1) /\
            (isKing pc = false -> player = 2 -> fst d = 1)).
  { intros d Hd. destruct (directions_unit _ _ _ Hd) as [H1 H2].
    split; [assumption|]. split; [assumption|].
    split; intros Hk Hp; rewrite Hk in Hd;
      destruct (directions_man _ _ Hd) as [Ha Hb]; auto. }
  assert (Hpl : player = 1 \/ player = 2)
    by (rewrite <- Hown; apply playerOf_cases).
  destruct m as [[fr fc] dest cap]. simpl in *.
  inversion Hgen as [d Hd Hn Hj He Hrow Hfree | d Hd Hn Hrow Hfree Hmjf];
    subst; destruct (Hdir d Hd) as (Hdr & Hdc & Hm1 & Hm2);
    exists pc, (fst d), (snd d); cbv zeta.
  - simpl. repeat (split; [first [assumption | exact Hf | reflexivity]|]).
    right. split; [reflexivity|]. split; [reflexivity|].
    apply isEnemy_other in He. exact He.
  - simpl. repeat (split; [first [assumption | exact Hf | reflexivity]|]).
    left. auto.
Qed.

(** The shape of every legal move.  It starts on a piece of the player,
    runs one diagonal step onto a free square of the grid, or two over a
    piece of the other player that it records as captured; a man of
    player 1 only moves towards row 0 and a man of player 2 towards
    row 7; a step is legal only while no continuation is forced. *)
Theorem legal_move_shape b player mjf valid m :
  getAllValidMoves b player mjf = Ok valid -> In m valid ->
  exists pc dr dc,
    let fr := fst (from m) in
    let fc := snd (from m) in
    in_grid (from m) /\ in_grid (to m) /\
    cell b fr fc = Some pc /\ pc <> 0 /\ playerOf pc = player /\
    (player = 1 \/ player = 2) /\
    (dr = -1 \/ dr = 1) /\ (dc = -1 \/ dc = 1) /\
    (isKing pc = false -> player = 1 -> dr = -1) /\
    (isKing pc = false -> player = 2 -> dr = 1) /\
    truthy (cell b (fst (to m)) (snd (to m))) = false /\
    ((captured m = None /\ to m = (fr + dr, fc + dc) /\ mjf = None) \/
     (captured m = Some (fr + dr, fc + dc) /\
      to m = (fr + 2 * dr, fc + 2 * dc) /\
      exists v, cell b (fr + dr) (fc + dc) = Some v /\
                ((player = 1 /\ (v = 2 \/ v = 4)) \/
                 (player = 2 /\ (v = 1 \/ v = 3))))).
Proof. apply legal_move_geometry. Qed.

Lemma getValidMoves_forced_origin b row col p ms m :
  getValidMoves b row col (Some p) = Ok ms -> In m ms -> p = (row, col).
Proof.
  unfold getValidMoves. intros Hrun Hin.
  apply res_bind_ok in Hrun as (piece & _ & Hrun).
  destruct piece as [pc|]; [|injection Hrun as <-; contradiction].
  destruct (pc =? 0); [injection Hrun as <-; contradiction|].
  apply res_bind_ok in Hrun as (acc & _ & Hrun).
  destruct ((fst p =? row) && (snd p =? col)) eqn:E;
    [|injection Hrun as <-; contradiction].
  destruct p as [pr pcol]. simpl in E. f_equal; lia.
Qed.

(** Forced continuation.  While mustJumpFrom is set, every legal move is
    a capture by the piece on that square; there is a legal move only if
    that square is on the grid and holds a piece of the player; and then
    the legal moves are exactly the jumps getValidMoves gives for it. *)
Theorem forced_continuation_moves b player q valid :
  getAllValidMoves b player (Some q) = Ok valid ->
  (forall m, In m valid -> from m = q /\ isCapture m = true) /\
  (valid <> [] ->
     in_grid q /\
     exists pc, cell b (fst q) (snd q) = Some pc /\ pc <> 0 /\
                playerOf pc = player) /\
  (forall pc ms,
     in_grid q -> cell b (fst q) (snd q) = Some pc -> pc <> 0 ->
     playerOf pc = player ->
     getValidMoves b (fst q) (snd q) (Some q) = Ok ms ->
     forall m, In m valid <-> In m ms).
Proof.
  intros Hrun.
  assert (Hsound : forall m, In m valid ->
            from m = q /\ isCapture m = true /\ in_grid q /\
            (exists pc, cell b (fst q) (snd q) = Some pc /\ pc <> 0 /\
                        playerOf pc = player) /\
            forall ms, getValidMoves b (fst q) (snd q) (Some q) = Ok ms ->
                       In m ms).
  { intros m Hin.
    destruct (legal_generated _ _ _ _ _ Hrun Hin)
      as (pc & ms & Hf & Hcell & Hpc & Hown & Hms & Hin' & _).
    pose proof (getValidMoves_forced_origin _ _ _ _ _ _ Hms Hin') as Hq.
    assert (Hfrom : from m = q).
    { rewrite Hq. destruct (from m); reflexivity. }
    rewrite <- Hfrom.
    split; [reflexivity|].
    split; [eapply getValidMoves_forced; eauto|].
    split; [assumption|]. split; [exists pc; auto|].
    intros ms' Hms'. rewrite <- Hfrom in Hms.
    replace (fst (from m), snd (from m)) with (from m) in Hms
      by (destruct (from m); reflexivity).
    congruence. }
  split; [|split].
  - intros m Hin. destruct (Hsound m Hin) as (? & ? & _). auto.
  - intros Hne. destruct valid as [|m valid]; [contradiction|].
    destruct (Hsound m (or_introl eq_refl)) as (_ & _ & ? & ? & _). auto.
  - intros pc ms Hq Hcell Hpc Hown Hms m. split.
    + intros Hin. destruct (Hsound m Hin) as (_ & _ & _ & _ & H). auto.
    + intros Hin.
      pose proof (getValidMoves_forced _ _ _ _ _ _ Hms Hin) as Hcap.
      pose proof Hrun as Hrun'. unfold getAllValidMoves in Hrun'.
      apply res_bind_ok in Hrun' as (all & Hall & Hret).
      assert (Hinall : In m all).
      { eapply (collectAll_complete _ _ _ _ (fst q) (snd q) ms); eauto;
          try apply Hq.
        exists pc. auto. }
      rewrite (filter_nonempty all m Hinall Hcap) in Hret.
      injection Hret as <-. apply filter_In. auto.
Qed.

Lemma forced_continuation_moves_witness :
  from (mkMove (3, 4) (1, 6) (Some (2, 5))) = (3, 4) /\
  isCapture (mkMove (3, 4) (1, 6) (Some (2, 5))) = true.
Proof.
  destruct (forced_continuation_moves
              (board (fst (applyMove (mkMove (5, 2) (3, 4) (Some (4, 3)))
                                     (inPlay multiJump))))
              1 (3, 4) [mkMove (3, 4) (1, 6) (Some (2, 5))]) as [H _].
  - vm_compute. reflexivity.
  - apply (H (mkMove (3, 4) (1, 6) (Some (2, 5)))). now left.
Defined.

Lemma otherPlayer_flips p :
  (p = 1 \/ p = 2) ->
  otherPlayer p <> p /\ (otherPlayer p = 1 \/ otherPlayer p = 2).
Proof. unfold otherPlayer. intros [->| ->]; simpl; lia. Qed.

(** What a legal move writes.  It is applied without an exception; the
    origin is emptied; every cell other than the origin, the destination
    and the captured square, on or off the grid, is as before; and a
    legal step without capture always hands the turn to the other of the
    two players and clears mustJumpFrom. *)
Theorem legal_move_frame gs valid move :
  getAllValidMoves (board gs) (currentTurn gs) (mustJumpFrom gs) = Ok valid ->
  In move valid ->
  exists gs',
    applyMove move gs = (gs', Ok tt) /\
    cell (board gs') (fst (from move)) (snd (from move)) = Some 0 /\
    (forall r c, (r, c) <> from move -> (r, c) <> to move ->
                 captured move <> Some (r, c) ->
                 cell (board gs') r c = cell (board gs) r c) /\
    (captured move = None ->
       currentTurn gs' = otherPlayer (currentTurn gs) /\
       currentTurn gs' <> currentTurn gs /\
       (currentTurn gs' = 1 \/ currentTurn gs' = 2) /\
       mustJumpFrom gs' = None).
Proof.
  intros Hrun Hin.
  destruct (legal_applyMove_complete _ _ _ Hrun Hin)
    as (b3 & further & allMoves & Hw & _ & _ & _ & Happ).
  destruct (legal_move_squares _ _ _ _ _ Hrun Hin)
    as (_ & _ & _ & Hne & (pc & _ & _ & Hown) & _ & Hcapsq).
  destruct (writes_of_cells _ _ _ Hw Hne) as (_ & Horig & _ & Hrest).
  { intros c Hc. destruct (Hcapsq c Hc) as (_ & ? & ?). auto. }
  eexists. split; [exact Happ|]. simpl.
  split; [exact Horig|]. split; [exact Hrest|].
  intros Hnone. unfold continues, isCapture. rewrite Hnone. simpl.
  assert (Hp : currentTurn gs = 1 \/ currentTurn gs = 2)
    by (rewrite <- Hown; apply playerOf_cases).
  destruct (otherPlayer_flips _ Hp). auto.
Qed.

Lemma legal_move_frame_witness :
  exists gs',
    applyMove (mkMove (5, 0) (4, 1) None) createGameState = (gs', Ok tt) /\
    currentTurn gs' = 2 /\ mustJumpFrom gs' = None.
Proof.
  destruct (legal_move_frame createGameState
              [mkMove (5, 0) (4, 1) None; mkMove (5, 2) (4, 1) None;
               mkMove (5, 2) (4, 3) None; mkMove (5, 4) (4, 3) None;
               mkMove (5, 4) (4, 5) None; mkMove (5, 6) (4, 5) None;
               mkMove (5, 6) (4, 7) None]
              (mkMove (5, 0) (4, 1) None))
    as (gs' & Happ & _ & _ & Hstep).
  - vm_compute. reflexivity.
  - now left.
  - exists gs'. split; [exact Happ|].
    destruct (Hstep eq_refl) as (Ht & _ & _ & Hm). split; [exact Ht|exact Hm].
Defined.

Lemma legal_move_shape_witness :
  exists pc dr dc,
    cell multiJump 5 2 = Some pc /\ playerOf pc = 1 /\
    (dr = -1 \/ dr = 1) /\ (dc = -1 \/ dc = 1).
Proof.
  destruct (legal_move_shape multiJump 1 None
              [mkMove (5, 2) (3, 4) (Some (4, 3))]
              (mkMove (5, 2) (3, 4) (Some (4, 3))))
    as (pc & dr & dc & _ & _ & Hc & _ & Hp & _ & Hdr & Hdc & _).
  - vm_compute. reflexivity.
  - now left.
  - exists pc, dr, dc. auto.
Defined.

(* --------------------------------------------------------------------- *)
(*  Counting pieces                                                      *)
(* --------------------------------------------------------------------- *)

Lemma grid_NoDup : NoDup (list_prod (seqZ 0 8) (seqZ 0 8)).
Proof.
  apply (bool_decide_unpack (NoDup (list_prod (seqZ 0 8) (seqZ 0 8)))).
  vm_compute. exact I.
Qed.

Lemma grid_In r c : In (r, c) (list_prod (seqZ 0 8) (seqZ 0 8)) <-> in_grid (r, c).
Proof.
  rewrite in_prod_iff, !in_seqZ_0_8. unfold in_grid. simpl. reflexivity.
Qed.

(** Changing a predicate at one element changes the count by at most
    that element. *)
Lemma count_point {K} (l : list K) (f g : K -> bool) x :
  NoDup l -> In x l -> (forall y, y <> x -> In y l -> f y = g y) ->
  (length (List.filter g l) + Nat.b2n (f x) =
   length (List.filter f l) + Nat.b2n (g x))%nat.
Proof.
  induction l as [|y l IH]; intros Hnd Hin Hsame; [contradiction|].
  apply NoDup_cons in Hnd as [Hny Hnd]. rewrite list_elem_of_In in Hny.
  assert (Hrest : forall z, In z l -> z <> x -> f z = g z).
  { intros z Hz Hzx. apply Hsame; [assumption|now right]. }
  destruct Hin as [->|Hin].
  - assert (Heq : List.filter g l = List.filter f l).
    { apply filter_ext_in. intros z Hz. symmetry. apply Hrest; [assumption|].
      intros ->. contradiction. }
    simpl. rewrite Heq. destruct (f x), (g x); simpl; lia.
  - assert (Hyx : y <> x) by (intros ->; contradiction).
    specialize (IH Hnd Hin (fun z Hzx Hz => Hrest z Hz Hzx)).
    simpl. rewrite <- (Hsame y Hyx (or_introl eq_refl)).
    destruct (f y); simpl; lia.
Qed.

Arguments countCells : simpl never.

Lemma countCells_write p b r c v b' :
  writeCell b r c v = Ok b' -> in_grid (r, c) ->
  (countCells p b' + Nat.b2n (p (cell b r c)) =
   countCells p b + Nat.b2n (p v))%nat.
Proof.
  intros Hw Hg. unfold countCells.
  pose proof (count_point (list_prod (seqZ 0 8) (seqZ 0 8))
                (fun rc => p (cell b (fst rc) (snd rc)))
                (fun rc => p (cell b' (fst rc) (snd rc))) (r, c)
                grid_NoDup (proj2 (grid_In r c) Hg)) as H.
  cbn beta in H. cbn [fst snd] in H.
  rewrite (writeCell_same _ _ _ _ _ Hw) in H. apply H.
  intros [r' c'] Hne _. cbn [fst snd].
  now rewrite (writeCell_other _ _ _ _ _ r' c' Hw).
Qed.

(** The count of a class of pieces after the three writes of a move whose
    squares lie on the grid, when the class does not contain the empty
    cell and promotion stays inside the class. *)
Lemma writes_of_count p b move b3 :
  writes_of b move b3 ->
  in_grid (from move) -> in_grid (to move) ->
  to move <> from move ->
  (forall cap, captured move = Some cap ->
     in_grid cap /\ cap <> from move /\ cap <> to move) ->
  p (Some 0) = false ->
  p (cell b (fst (to move)) (snd (to move))) = false ->
  p (promote (cell b (fst (from move)) (snd (from move))) (fst (to move)))
    = p (cell b (fst (from move)) (snd (from move))) ->
  (countCells p b3 +
   match captured move with
   | Some cap => Nat.b2n (p (cell b (fst cap) (snd cap)))
   | None => 0
   end = countCells p b)%nat.
Proof.
  intros (b1 & b2 & H1 & H2 & H3) Hf Ht Hne Hcap Hzero Hfree Hprom.
  destruct (from move) as [fr fc] eqn:Efrom, (to move) as [tr tc] eqn:Eto.
  simpl in *.
  pose proof (countCells_write p _ _ _ _ _ H1 Hf) as C1.
  rewrite Hzero in C1. simpl in C1.
  destruct (captured move) as [[cr cc]|] eqn:Ecap.
  - destruct (Hcap _ eq_refl) as (Hcg & Hcf & Hct). simpl in *.
    pose proof (countCells_write p _ _ _ _ _ H2 Hcg) as C2.
    rewrite Hzero in C2. simpl in C2.
    rewrite (writeCell_other _ _ _ _ _ cr cc H1) in C2 by congruence.
    pose proof (countCells_write p _ _ _ _ _ H3 Ht) as C3.
    rewrite (writeCell_other _ _ _ _ _ tr tc H2) in C3 by congruence.
    rewrite (writeCell_other _ _ _ _ _ tr tc H1) in C3 by congruence.
    rewrite Hfree, Hprom in C3. simpl in C3. lia.
  - injection H2 as <-.
    pose proof (countCells_write p _ _ _ _ _ H3 Ht) as C3.
    rewrite (writeCell_other _ _ _ _ _ tr tc H1) in C3 by congruence.
    rewrite Hfree, Hprom in C3. simpl in C3. lia.
Qed.

Lemma promote_class1 piece tr :
  (is_num (promote piece tr) 1 || is_num (promote piece tr) 3) =
  (is_num piece 1 || is_num piece 3).
Proof.
  unfold promote, is_num. destruct piece as [v|]; [|reflexivity].
  destruct (v =? 1) eqn:E1, (v =? 2) eqn:E2, (v =? 3) eqn:E3, (tr =? 0), (tr =? 7);
    simpl; try reflexivity; try lia;
    rewrite ?E1, ?E3; reflexivity.
Qed.

Lemma promote_class2 piece tr :
  (is_num (promote piece tr) 2 || is_num (promote piece tr) 4) =
  (is_num piece 2 || is_num piece 4).
Proof.
  unfold promote, is_num. destruct piece as [v|]; [|reflexivity].
  destruct (v =? 1) eqn:E1, (v =? 2) eqn:E2, (v =? 4) eqn:E4, (tr =? 0), (tr =? 7);
    simpl; try reflexivity; try lia;
    rewrite ?E2, ?E4; reflexivity.
Qed.

Lemma falsy_no_piece v n : truthy v = false -> n <> 0 -> is_num v n = false.
Proof.
  unfold truthy, is_num. destruct v as [k|]; [|reflexivity].
  intros H Hn. apply negb_false_iff, Z.eqb_eq in H. subst k.
  apply Z.eqb_neq. lia.
Qed.

(** The effect of a legal move on the two piece counts, by the shared
    facts of the move. *)
Lemma legal_move_counts b player mjf valid move b3 :
  getAllValidMoves b player mjf = Ok valid -> In move valid ->
  writes_of b move b3 ->
  match captured move with
  | None => pieces1 b3 = pieces1 b /\ pieces2 b3 = pieces2 b
  | Some _ =>
    (player = 1 /\ pieces1 b3 = pieces1 b /\ S (pieces2 b3) = pieces2 b) \/
    (player = 2 /\ S (pieces1 b3) = pieces1 b /\ pieces2 b3 = pieces2 b)
  end.
Proof.
  intros Hrun Hin Hw.
  destruct (legal_move_squares _ _ _ _ _ Hrun Hin)
    as (_ & Hf & Ht & Hne & _ & Hfree & Hcapsq).
  destruct (legal_move_geometry _ _ _ _ _ Hrun Hin)
    as (pc & dr & dc & _ & _ & _ & _ & _ & _ & _ & _ & _ & _ & _ & Hkind).
  cbv zeta in Hkind.
  pose proof (writes_of_count (fun v => is_num v 1 || is_num v 3) _ _ _ Hw
                Hf Ht Hne Hcapsq eq_refl) as C1.
  pose proof (writes_of_count (fun v => is_num v 2 || is_num v 4) _ _ _ Hw
                Hf Ht Hne Hcapsq eq_refl) as C2.
  simpl in C1, C2.
  rewrite (falsy_no_piece _ 1 Hfree), (falsy_no_piece _ 3 Hfree) in C1 by lia.
  rewrite (falsy_no_piece _ 2 Hfree), (falsy_no_piece _ 4 Hfree) in C2 by lia.
  specialize (C1 eq_refl (promote_class1 _ _)).
  specialize (C2 eq_refl (promote_class2 _ _)).
  unfold pieces1, pieces2.
  destruct Hkind as [(Hnone & _)|(Hcap & _ & v & Hv & Hwho)].
  - rewrite Hnone in *. lia.
  - rewrite Hcap in *. simpl in C1, C2. rewrite Hv in C1, C2.
    destruct Hwho as [(Hp & [-> | ->])|(Hp & [-> | ->])]; simpl in C1, C2;
      [left|left|right|right]; (split; [exact Hp|]); lia.
Qed.

(** Piece counts under a legal move.  A step leaves both counts as they
    are; a capture leaves the count of the player who moves as it is and
    takes exactly one piece from the other player. *)
Theorem legal_move_piece_counts gs valid move :
  getAllValidMoves (board gs) (currentTurn gs) (mustJumpFrom gs) = Ok valid ->
  In move valid ->
  let b := board gs in
  let b' := board (fst (applyMove move gs)) in
  match captured move with
  | None => pieces1 b' = pieces1 b /\ pieces2 b' = pieces2 b
  | Some _ =>
    (currentTurn gs = 1 /\ pieces1 b' = pieces1 b /\ S (pieces2 b') = pieces2 b) \/
    (currentTurn gs = 2 /\ S (pieces1 b') = pieces1 b /\ pieces2 b' = pieces2 b)
  end.
Proof.
  intros Hrun Hin b b'.
  destruct (legal_applyMove_complete _ _ _ Hrun Hin)
    as (b3 & further & allMoves & Hw & _ & _ & _ & Happ).
  subst b'. rewrite (applyMove_board _ _ _ Hw).
  exact (legal_move_counts _ _ _ _ _ _ Hrun Hin Hw).
Qed.

Lemma legal_move_piece_counts_witness :
  let gs := inPlay multiJump in
  let move := mkMove (5, 2) (3, 4) (Some (4, 3)) in
  pieces1 (board (fst (applyMove move gs))) = pieces1 (board gs) /\
  S (pieces2 (board (fst (applyMove move gs)))) = pieces2 (board gs).
Proof.
  cbv zeta.
  pose proof (legal_move_piece_counts (inPlay multiJump)
                [mkMove (5, 2) (3, 4) (Some (4, 3))]
                (mkMove (5, 2) (3, 4) (Some (4, 3)))) as H.
  cbv zeta in H. simpl captured in H.
  destruct H as [(_ & H1 & H2)|(Hturn & _)].
  - vm_compute. reflexivity.
  - now left.
  - split; [exact H1|exact H2].
  - discriminate Hturn.
Defined.

(** The counting loop of renderGame, against the counts. *)
Lemma countPiece_row b r cols :
  is_Some (b !! r) ->
  forall acc,
    foldM (countPiece b r) acc cols =
    Ok (fst acc + Z.of_nat (length (List.filter
                    (fun rc => is_num (cell b (fst rc) (snd rc)) 1 ||
                               is_num (cell b (fst rc) (snd rc)) 3)
                    (List.map (fun y => (r, y)) cols))),
        snd acc + Z.of_nat (length (List.filter
                    (fun rc => is_num (cell b (fst rc) (snd rc)) 2 ||
                               is_num (cell b (fst rc) (snd rc)) 4)
                    (List.map (fun y => (r, y)) cols)))).
Proof.
  intros Hrow. induction cols as [|c cols IH]; intros [n1 n2]; simpl.
  - f_equal. f_equal; lia.
  - unfold countPiece at 1. rewrite (readCell_ok _ _ _ Hrow). simpl.
    rewrite IH. simpl.
    destruct (is_num (cell b r c) 1 || is_num (cell b r c) 3),
             (is_num (cell b r c) 2 || is_num (cell b r c) 4);
      simpl length; f_equal; f_equal; lia.
Qed.

Lemma countPiece_rows b rows cols :
  (forall r, In r rows -> is_Some (b !! r)) ->
  forall acc,
    foldM (fun acc r => foldM (countPiece b r) acc cols) acc rows =
    Ok (fst acc + Z.of_nat (length (List.filter
                    (fun rc => is_num (cell b (fst rc) (snd rc)) 1 ||
                               is_num (cell b (fst rc) (snd rc)) 3)
                    (list_prod rows cols))),
        snd acc + Z.of_nat (length (List.filter
                    (fun rc => is_num (cell b (fst rc) (snd rc)) 2 ||
                               is_num (cell b (fst rc) (snd rc)) 4)
                    (list_prod rows cols)))).
Proof.
  induction rows as [|r rows IH]; intros Hrows [n1 n2].
  - simpl. f_equal. f_equal; lia.
  - cbn [foldM list_prod].
    rewrite (countPiece_row b r cols (Hrows r (or_introl eq_refl))).
    cbn [res_bind]. rewrite IH by (intros; apply Hrows; now right).
    cbn [fst snd]. rewrite !List.filter_app, !length_app. f_equal. f_equal; lia.
Qed.

Lemma countPieces_counts b :
  rows_ok b ->
  countPieces b = Ok (Z.of_nat (pieces1 b), Z.of_nat (pieces2 b)).
Proof.
  intros Hb. unfold countPieces.
  rewrite countPiece_rows by (intros r Hr%in_seqZ_0_8; now apply Hb).
  reflexivity.
Qed.

(* --------------------------------------------------------------------- *)
(*  Invariants of a game played with legal moves                         *)
(* --------------------------------------------------------------------- *)

Lemma createInitialBoard_off_grid r c :
  ~ in_grid (r, c) -> cell createInitialBoard r c = None.
Proof.
  intros Hout. unfold cell.
  destruct (createInitialBoard !! r) as [cells|] eqn:Hr; [|reflexivity].
  simpl. apply not_elem_of_dom.
  assert (Hin : r ∈ dom createInitialBoard) by (apply elem_of_dom; eauto).
  rewrite createInitialBoard_dom, elem_of_list_to_set, list_elem_of_In,
    in_seqZ_0_8 in Hin.
  destruct createInitialBoard_shape as [_ Hcols].
  rewrite (Hcols r cells Hr), elem_of_list_to_set, list_elem_of_In, in_seqZ_0_8.
  unfold in_grid in Hout. simpl in Hout. lia.
Qed.

Lemma createInitialBoard_ok : board_ok createInitialBoard.
Proof.
  intros r c. split; [|apply createInitialBoard_off_grid].
  intros [Hr Hc]. simpl in Hr, Hc.
  exists (startCell r c). split; [now apply createInitialBoard_cells|].
  unfold startCell.
  destruct ((r + c) mod 2 =? 1) eqn:Hpar, (r <? 3) eqn:H3, (4 <? r) eqn:H4;
    repeat split; try lia.
Qed.

Lemma promote_range pc tr :
  1 <= pc <= 4 ->
  exists v, promote (Some pc) tr = Some v /\ 1 <= v <= 4 /\
            (tr = 0 -> v <> 1) /\ (tr = 7 -> v <> 2) /\
            (tr <> 0 -> tr <> 7 -> v = pc) /\ (isKing pc = true -> v = pc).
Proof.
  intros Hpc. unfold promote, is_num, isKing.
  destruct (pc =? 1) eqn:E1, (pc =? 2) eqn:E2, (tr =? 0) eqn:T0, (tr =? 7) eqn:T7;
    simpl; eexists; (split; [reflexivity|]); repeat split; try lia;
    try discriminate;
    destruct (pc =? 3) eqn:E3, (pc =? 4) eqn:E4; simpl; try lia; try discriminate.
Qed.

(** A legal move keeps the board a board of the game. *)
Lemma legal_move_board_ok b player mjf valid move b3 :
  getAllValidMoves b player mjf = Ok valid -> In move valid ->
  writes_of b move b3 -> board_ok b -> board_ok b3.
Proof.
  intros Hrun Hin Hw Hok.
  destruct (legal_move_squares _ _ _ _ _ Hrun Hin)
    as (_ & Hf & Ht & Hne & _ & _ & Hcapsq).
  destruct (legal_move_geometry _ _ _ _ _ Hrun Hin)
    as (pc & dr & dc & _ & _ & Hcell & Hpc & _ & _ & Hdr & Hdc & _ & _ & _ & Hkind).
  cbv zeta in Hkind.
  destruct (writes_of_cells _ _ _ Hw Hne) as (Hdest & Horig & Hcapd & Hrest).
  { intros cp Hc. destruct (Hcapsq cp Hc) as (_ & ? & ?). auto. }
  destruct (Hok (fst (from move)) (snd (from move))) as [Hfrom_in _].
  destruct Hfrom_in as (v0 & Hv0 & Hrange & Hdark & _).
  { destruct (from move); exact Hf. }
  assert (v0 = pc) by congruence. subst v0.
  destruct (promote_range pc (fst (to move))) as (v & Hv & Hvr & Hv0' & Hv7 & _);
    [lia|].
  assert (Hpar : (fst (to move) + snd (to move)) mod 2 = 1).
  { specialize (Hdark Hpc).
    destruct Hkind as [(_ & -> & _)|(_ & -> & _)]; simpl;
      destruct Hdr as [-> | ->], Hdc as [-> | ->];
      Z.div_mod_to_equations; lia. }
  intros r c.
  destruct (decide ((r, c) = to move)) as [Heq|Hnt].
  { rewrite <- Heq in *. simpl in *. split; [|intros Hout; contradiction].
    intros _. exists v. rewrite Hdest, Hcell, Hv.
    repeat split; try lia; auto. }
  destruct (decide ((r, c) = from move)) as [Heq|Hnf].
  { rewrite <- Heq in *. simpl in *. split; [|intros Hout; contradiction].
    intros _. exists 0. rewrite Horig. repeat split; lia. }
  destruct (decide (captured move = Some (r, c))) as [Heq|Hnc].
  { destruct (Hcapsq _ Heq) as (Hg & _).
    split; [|intros Hout; contradiction].
    intros _. exists 0. pose proof (Hcapd _ Heq) as Hz. simpl in Hz.
    rewrite Hz. repeat split; lia. }
  rewrite (Hrest r c Hnf Hnt Hnc). apply Hok.
Qed.

Lemma createInitialBoard_counts :
  pieces1 createInitialBoard = 12%nat /\ pieces2 createInitialBoard = 12%nat.
Proof. split; vm_compute; reflexivity. Qed.

(** A capture the forced piece has is a legal move. *)
Lemma forced_has_move b player q valid pc ms m :
  getAllValidMoves b player (Some q) = Ok valid ->
  in_grid q -> cell b (fst q) (snd q) = Some pc -> pc <> 0 ->
  playerOf pc = player ->
  getValidMoves b (fst q) (snd q) (Some q) = Ok ms -> In m ms ->
  In m valid.
Proof.
  intros Hrun Hq Hcell Hpc Hown Hms Hin.
  pose proof (getValidMoves_forced _ _ _ _ _ _ Hms Hin) as Hcap.
  unfold getAllValidMoves in Hrun.
  apply res_bind_ok in Hrun as (all & Hall & Hret).
  assert (Hinall : In m all).
  { eapply (collectAll_complete _ _ _ _ (fst q) (snd q) ms); eauto;
      try apply Hq.
    exists pc. auto. }
  rewrite (filter_nonempty all m Hinall Hcap) in Hret.
  injection Hret as <-. apply filter_In. auto.
Qed.

(** Everything a game played with legal moves keeps, in one induction. *)
Lemma played_invariants gs :
  played gs ->
  board_ok (board gs) /\
  (currentTurn gs = 1 \/ currentTurn gs = 2) /\
  ((pieces1 (board gs) <= 12)%nat /\ (pieces2 (board gs) <= 12)%nat) /\
  (exists valid,
     getAllValidMoves (board gs) (currentTurn gs) (mustJumpFrom gs) = Ok valid /\
     ((winner gs = None /\ valid <> []) \/
      (winner gs = Some (otherPlayer (currentTurn gs)) /\ valid = []))) /\
  (forall q, mustJumpFrom gs = Some q ->
     in_grid q /\
     exists pc ms m,
       cell (board gs) (fst q) (snd q) = Some pc /\ pc <> 0 /\
       playerOf pc = currentTurn gs /\
       getValidMoves (board gs) (fst q) (snd q) (Some q) = Ok ms /\
       In m ms /\ isCapture m = true).
Proof.
  induction 1 as [|gs valid move gs' Hplayed IH Hnowin Hrun Hin Happ].
  - split; [exact createInitialBoard_ok|]. split; [now left|].
    split; [cbn [createGameState board];
            destruct createInitialBoard_counts as [-> ->]; lia|].
    split; [|intros q [=]].
    eexists. split; [vm_compute; reflexivity|]. left. split; [reflexivity|].
    discriminate.
  - destruct IH as (Hok & Hturn & [Hn1 Hn2] & (valid0 & Hvalid0 & Hw0) & _).
    assert (Hwin : winner gs = None).
    { destruct Hw0 as [[? _]|[Hw _]]; [assumption|].
      rewrite Hw in Hnowin. unfold otherPlayer in Hnowin.
      destruct (currentTurn gs =? 1); discriminate. }
    destruct (legal_applyMove_complete _ _ _ Hrun Hin)
      as (b3 & further & allMoves & Hw & Hb3 & Hfur & Hall & Happ').
    cbv zeta in Hall, Happ'. rewrite Happ in Happ'. injection Happ' as ->.
    set (piece := cell (board gs) (fst (from move)) (snd (from move))) in *.
    set (go := continues move piece further) in *.
    simpl.
    destruct (legal_move_squares _ _ _ _ _ Hrun Hin)
      as (_ & _ & Ht & Hne & (pc & Hpcell & Hpc & Hown) & _ & Hcapsq).
    split; [exact (legal_move_board_ok _ _ _ _ _ _ Hrun Hin Hw Hok)|].
    split.
    { destruct go; [assumption|]. apply otherPlayer_flips. assumption. }
    split.
    { pose proof (legal_move_counts _ _ _ _ _ _ Hrun Hin Hw) as Hc.
      revert Hc. destruct (captured move);
        [intros [(_ & ? & ?)|(_ & ? & ?)]|intros [? ?]]; lia. }
    split.
    { exists allMoves. split; [exact Hall|].
      destruct allMoves as [|m0 rest]; [right|left]; cbn [length];
        [|rewrite Hwin]; (split; [reflexivity|]); [reflexivity|discriminate]. }
    intros q Hq. destruct go eqn:Hgo; [|discriminate]. injection Hq as <-.
    split; [exact Ht|].
    unfold go, continues in Hgo.
    apply andb_prop in Hgo as [Hgo Hmore]. apply andb_prop in Hgo as [_ Hsame].
    apply bool_decide_eq_true in Hsame.
    apply filter_capture_exists in Hmore as (m & Hm & Hcap).
    destruct (writes_of_cells _ _ _ Hw Hne) as (Hdest & _).
    { intros cp Hc. destruct (Hcapsq cp Hc) as (_ & ? & ?). auto. }
    fold piece in Hdest. rewrite Hsame in Hdest. unfold piece in Hdest.
    rewrite Hpcell in Hdest.
    exists pc, further, m.
    replace (fst (to move), snd (to move)) with (to move) in *
      by (destruct (to move); reflexivity).
    auto 10.
Qed.

Lemma sameMove_eq m1 m2 : sameMove m1 m2 = true -> m1 = m2.
Proof.
  unfold sameMove, sameSquares.
  destruct m1 as [[a b] [c d] [[e f]|]], m2 as [[a' b'] [c' d'] [[e' f']|]];
    simpl; intros H; repeat (apply andb_prop in H as [H ?]);
    try discriminate; repeat f_equal; lia.
Qed.

Lemma replay_played moves :
  forall gs gs', played gs -> replay moves gs = Some gs' -> played gs'.
Proof.
  induction moves as [|move rest IH]; intros gs gs' Hgs Hrun; simpl in Hrun.
  - now injection Hrun as <-.
  - destruct (truthy (winner gs)) eqn:Hwin; [discriminate|].
    destruct (getAllValidMoves _ _ _) as [valid|e] eqn:Hvalid; [|discriminate].
    destruct (existsb (sameMove move) valid) eqn:Hex; [|discriminate].
    apply existsb_exists in Hex as (m & Hin & Hsame).
    apply sameMove_eq in Hsame. subst m.
    destruct (applyMove move gs) as [gs1 [[]|e]] eqn:Happ; [|discriminate].
    eapply IH; [|exact Hrun].
    eapply played_move; eauto.
Qed.

Lemma board_ok_rows b : board_ok b -> rows_ok b.
Proof.
  intros Hok r Hr. destruct (Hok r 0) as [Hin _].
  destruct Hin as (v & Hv & _); [unfold in_grid; simpl; lia|].
  eapply cell_row; eauto.
Qed.

(** The board of a played game.  In every position reached from the
    start position by legal moves, the board is the 8x8 grid and nothing
    beside it, every cell holds one of 0..4, pieces stand only on squares
    with odd row + column, and no uncrowned man stands on the rank where
    it is crowned (row 0 for player 1, row 7 for player 2). *)
Theorem played_board_ok gs : played gs -> board_ok (board gs).
Proof. intros H. apply (played_invariants gs H). Qed.

Lemma played_board_ok_witness : board_ok (board afterOpening).
Proof.
  apply (played_board_ok afterOpening).
  apply (replay_played openingGame createGameState afterOpening played_start).
  vm_compute. reflexivity.
Defined.

(** Piece counts of a played game.  Neither player ever has more than
    twelve pieces on the grid; the counting loop of renderGame does not
    throw and finds these counts, so the two numbers it hands to
    renderCaptured, 12 - p2pieces and 12 - p1pieces, lie in 0..12. *)
Theorem played_piece_counts gs :
  played gs ->
  (pieces1 (board gs) <= 12)%nat /\ (pieces2 (board gs) <= 12)%nat /\
  countPieces (board gs)
    = Ok (Z.of_nat (pieces1 (board gs)), Z.of_nat (pieces2 (board gs))) /\
  exists byP1 byP2,
    capturedCounts (board gs) = Ok (byP1, byP2) /\
    0 <= byP1 <= 12 /\ 0 <= byP2 <= 12.
Proof.
  intros H.
  destruct (played_invariants gs H) as (Hok & _ & [H1 H2] & _).
  pose proof (countPieces_counts _ (board_ok_rows _ Hok)) as Hc.
  split; [assumption|]. split; [assumption|]. split; [assumption|].
  unfold capturedCounts. rewrite Hc. simpl.
  do 2 eexists. split; [reflexivity|]. lia.
Qed.

Lemma played_piece_counts_witness :
  (pieces1 (board afterOpening) <= 12)%nat /\
  (pieces2 (board afterOpening) <= 12)%nat /\
  exists byP1 byP2,
    capturedCounts (board afterOpening) = Ok (byP1, byP2) /\
    0 <= byP1 <= 12 /\ 0 <= byP2 <= 12.
Proof.
  destruct (played_piece_counts afterOpening) as (H1 & H2 & _ & H3).
  - apply (replay_played openingGame createGameState afterOpening played_start).
    vm_compute. reflexivity.
  - split; [exact H1|]. split; [exact H2|exact H3].
Defined.

(** Turn and outcome of a played game.  currentTurn is always 1 or 2;
    getAllValidMoves returns for the player to move; and winner is null
    exactly while that player has a legal move: once it has none, winner
    is the other player. *)
Theorem played_winner_iff_stuck gs :
  played gs ->
  (currentTurn gs = 1 \/ currentTurn gs = 2) /\
  exists valid,
    getAllValidMoves (board gs) (currentTurn gs) (mustJumpFrom gs) = Ok valid /\
    (valid <> [] -> winner gs = None) /\
    (valid = [] -> winner gs = Some (otherPlayer (currentTurn gs))) /\
    (winner gs = None \/ winner gs = Some 1 \/ winner gs = Some 2).
Proof.
  intros H.
  destruct (played_invariants gs H) as (_ & Hturn & _ & (valid & Hv & Hw) & _).
  split; [assumption|]. exists valid. split; [assumption|].
  destruct Hw as [[Hw Hne]|[Hw ->]].
  - split; [auto|]. split; [intros ->; contradiction|]. now left.
  - split; [intros Hne; contradiction|]. split; [auto|]. right.
    rewrite Hw. unfold otherPlayer. destruct (currentTurn gs =? 1); auto.
Qed.

Lemma played_winner_iff_stuck_witness :
  exists valid,
    getAllValidMoves (board afterOpening) (currentTurn afterOpening)
                     (mustJumpFrom afterOpening) = Ok valid /\
    (valid <> [] -> winner afterOpening = None).
Proof.
  destruct (played_winner_iff_stuck afterOpening) as (_ & valid & Hv & Hw & _).
  - apply (replay_played openingGame createGameState afterOpening played_start).
    vm_compute. reflexivity.
  - exists valid. split; [exact Hv|exact Hw].
Defined.

(** The forced piece of a played game.  Whenever mustJumpFrom is set, it
    names a square of the grid that holds a piece of the player to move,
    getValidMoves gives that piece at least one capture, and the game is
    not over. *)
Theorem played_forced_piece gs q :
  played gs -> mustJumpFrom gs = Some q ->
  in_grid q /\ winner gs = None /\
  exists pc ms m,
    cell (board gs) (fst q) (snd q) = Some pc /\ pc <> 0 /\
    playerOf pc = currentTurn gs /\
    getValidMoves (board gs) (fst q) (snd q) (Some q) = Ok ms /\
    In m ms /\ isCapture m = true.
Proof.
  intros H Hq.
  destruct (played_invariants gs H) as (_ & _ & _ & (valid & Hv & Hw) & Hforced).
  destruct (Hforced q Hq) as (Hgrid & pc & ms & m & Hc & Hpc & Hown & Hms & Hin & Hcap).
  split; [assumption|]. split; [|exists pc, ms, m; auto 10].
  rewrite Hq in Hv.
  pose proof (forced_has_move _ _ _ _ _ _ _ Hv Hgrid Hc Hpc Hown Hms Hin) as Hin'.
  destruct Hw as [[Hw _]|[_ ->]]; [assumption|contradiction].
Qed.

Lemma played_forced_piece_witness :
  in_grid (3, 2) /\ winner afterOpening = None.
Proof.
  destruct (played_forced_piece afterOpening (3, 2)) as (Hg & Hw & _).
  - apply (replay_played openingGame createGameState afterOpening played_start).
    vm_compute. reflexivity.
  - vm_compute. reflexivity.
  - split; [exact Hg|exact Hw].
Defined.

(* ===================================================================== *)
(*  The client against the server                                        *)
(* ===================================================================== *)

Lemma length_test (n : nat) : negb (Z.of_nat n =? 0) = (0 <? Z.of_nat n).
Proof. destruct n; reflexivity. Qed.

Lemma getValidMovesForPiece_server b row col mjf :
  getValidMovesForPiece b row col mjf = getValidMoves b row col mjf.
Proof.
  unfold getValidMovesForPiece, getValidMoves.
  destruct (readCell b row col) as [[pc|]|e]; simpl; try reflexivity.
  destruct (pc =? 0); [reflexivity|].
  destruct (foldM _ _ _) as [acc|e]; simpl; [|reflexivity].
  destruct mjf; [reflexivity|]. now rewrite length_test.
Qed.

Lemma collectPiece_server b player mjf r all c :
  collectPiece b player mjf r all c = collectCell b player mjf r all c.
Proof.
  unfold collectPiece, collectCell. now rewrite getValidMovesForPiece_server.
Qed.

Lemma foldM_ext {A B} (f g : A -> B -> res A) (l : list B) :
  (forall a x, f a x = g a x) -> forall acc, foldM f acc l = foldM g acc l.
Proof.
  intros Hfg. induction l as [|x l IH]; intros acc; simpl; [reflexivity|].
  rewrite Hfg. destruct (g acc x); simpl; auto.
Qed.

Lemma getAllMovesForPlayer_server b player mjf :
  getAllMovesForPlayer b player mjf = getAllValidMoves b player mjf.
Proof.
  unfold getAllMovesForPlayer, getAllValidMoves, collectAll.
  rewrite (foldM_ext _ (fun all r => foldM (collectCell b player mjf r) all (seqZ 0 8))).
  - destruct (foldM _ _ _) as [all|e]; simpl; [|reflexivity].
    now rewrite length_test.
  - intros a r. apply foldM_ext. intros a' c. apply collectPiece_server.
Qed.

(** The client's move generators are the server's: on every board, cell,
    player and forced continuation, getValidMovesForPiece returns what
    getValidMoves returns and getAllMovesForPlayer what getAllValidMoves
    returns, the same list in the same order or the same exception. *)
Theorem client_moves_are_server_moves b row col player mjf :
  getValidMovesForPiece b row col mjf = getValidMoves b row col mjf /\
  getAllMovesForPlayer b player mjf = getAllValidMoves b player mjf.
Proof.
  split; [apply getValidMovesForPiece_server|apply getAllMovesForPlayer_server].
Qed.

(** The moves of one piece are all captures or all steps. *)
Lemma getValidMoves_uniform b row col mjf ms m m' :
  getValidMoves b row col mjf = Ok ms -> In m ms -> In m' ms ->
  isCapture m = isCapture m'.
Proof.
  intros Hrun Hm Hm'.
  destruct (getValidMoves_scan _ _ _ _ _ Hrun)
    as [->|(pc & acc & _ & _ & [Hj Hs] & Hms)]; [contradiction|].
  destruct Hms as [->|(-> & _)].
  - destruct (Hj m Hm) as [_ ->], (Hj m' Hm') as [_ ->]. reflexivity.
  - destruct (Hs m Hm) as [_ ->], (Hs m' Hm') as [_ ->]. reflexivity.
Qed.

(** If one move of a piece is legal for the player, all the moves
    getValidMoves gives for that piece are. *)
Lemma piece_moves_all_legal b player mjf valid m0 ms m :
  getAllValidMoves b player mjf = Ok valid -> In m0 valid ->
  getValidMoves b (fst (from m0)) (snd (from m0)) mjf = Ok ms -> In m ms ->
  In m valid.
Proof.
  intros Hrun Hin0 Hms Hin.
  destruct (legal_generated _ _ _ _ _ Hrun Hin0)
    as (pc & ms0 & Hf & Hcell & Hpc & Hown & Hms0 & Hin0' & _).
  assert (ms0 = ms) by congruence. subst ms0.
  pose proof (getValidMoves_uniform _ _ _ _ _ _ _ Hms Hin Hin0') as Huni.
  pose proof Hrun as Hrun'. unfold getAllValidMoves in Hrun'.
  apply res_bind_ok in Hrun' as (all & Hall & Hret).
  assert (Hinall : In m all).
  { apply (collectAll_complete b player mjf all (fst (from m0)) (snd (from m0))
             ms Hall); [apply Hf|apply Hf| |exact Hin].
    exists pc. repeat split; assumption. }
  destruct (0 <? Z.of_nat (length (List.filter isCapture all))) eqn:Hj;
    injection Hret as <-; [|assumption].
  apply filter_In. split; [assumption|].
  apply filter_In in Hin0 as [_ Hcap0]. congruence.
Qed.

(** The acceptance path of the makeMove handler. *)
Lemma makeMove_member socket move (rooms : gmap string Room) room gs valid :
  rooms !! keyOf (roomId socket) = Some room ->
  gameState room = Some gs ->
  truthy (winner gs) = false ->
  playerIndex socket = Some (currentTurn gs) ->
  getAllValidMoves (board gs) (currentTurn gs) (mustJumpFrom gs) = Ok valid ->
  In move valid ->
  snd (applyMove move gs) = Ok tt /\
  makeMove socket move rooms =
    (<[keyOf (roomId socket) :=
         mkRoom (players room) (Some (fst (applyMove move gs))) (rematchVotes room)]>
       rooms,
     [Emit (ToRoom (roomId socket)) "gameStateUpdate"
           (Update (fst (applyMove move gs)))]).
Proof.
  intros Hroom Hgs Hwin Hidx Hvalid Hin.
  destruct (legal_applyMove_complete _ _ _ Hvalid Hin)
    as (b3 & further & allMoves & _ & _ & _ & _ & Happ).
  cbv zeta in Happ.
  split; [now rewrite Happ|].
  unfold makeMove. rewrite Hroom, Hgs, Hwin, Hidx, Z.eqb_refl. simpl negb.
  cbv iota. rewrite Hvalid.
  assert (Hex : existsb (fun m => sameSquares m move) valid = true).
  { apply existsb_sameSquares. exists move. auto. }
  rewrite Hex. simpl negb. cbv iota. rewrite Happ. reflexivity.
Qed.

(** An honest client is never refused.  When renderGame makes the piece
    on (row, col) selectable, every move getValidMovesForPiece offers for
    it is one of the server's legal move objects; sent by the socket
    whose playerIndex the client holds, to the room with the same game
    state, it is applied without an exception and broadcast: the answer
    is gameStateUpdate, never invalidMove. *)
Theorem selectable_moves_accepted gs me row col ms m socket
    (rooms : gmap string Room) room :
  isSelectable gs me row col = Ok true ->
  getValidMovesForPiece (board gs) row col (mustJumpFrom gs) = Ok ms ->
  In m ms ->
  rooms !! keyOf (roomId socket) = Some room ->
  gameState room = Some gs ->
  playerIndex socket = me ->
  (exists valid,
     getAllValidMoves (board gs) (currentTurn gs) (mustJumpFrom gs) = Ok valid /\
     In m valid) /\
  snd (applyMove m gs) = Ok tt /\
  makeMove socket m rooms =
    (<[keyOf (roomId socket) :=
         mkRoom (players room) (Some (fst (applyMove m gs))) (rematchVotes room)]>
       rooms,
     [Emit (ToRoom (roomId socket)) "gameStateUpdate"
           (Update (fst (applyMove m gs)))]).
Proof.
  intros Hsel Hms Hin Hroom Hgs Hidx.
  rewrite getValidMovesForPiece_server in Hms.
  unfold isSelectable, allMyMoves in Hsel.
  destruct (isMyTurn gs me) eqn:Hturn.
  2:{ simpl in Hsel. destruct (readCell _ _ _); simpl in Hsel; discriminate. }
  unfold isMyTurn in Hturn. apply andb_prop in Hturn as [Hme Hwin].
  apply bool_decide_eq_true in Hme. apply negb_true_iff in Hwin.
  subst me. rewrite getAllMovesForPlayer_server in Hsel.
  destruct (getAllValidMoves _ _ _) as [valid|e] eqn:Hvalid; simpl in Hsel;
    [|discriminate].
  destruct (readCell _ _ _) as [piece|e]; simpl in Hsel; [|discriminate].
  injection Hsel as Hsel. apply andb_prop in Hsel as [_ Hex].
  apply existsb_exists in Hex as (m0 & Hin0 & Hfrom).
  apply andb_prop in Hfrom as [Hr Hc].
  assert (Hlegal : In m valid).
  { eapply (piece_moves_all_legal _ _ _ _ m0 ms); eauto.
    replace (fst (from m0)) with row by lia.
    replace (snd (from m0)) with col by lia. exact Hms. }
  split; [exists valid; auto|].
  eapply makeMove_member; eauto.
Qed.

Lemma selectable_moves_accepted_witness :
  makeMove socketA (mkMove (5, 0) (4, 1) None) startedRooms =
    (<[ "ABC123"%string :=
          mkRoom ["a"; "b"]%string
            (Some (fst (applyMove (mkMove (5, 0) (4, 1) None) createGameState)))
            ∅ ]> startedRooms,
     [Emit (ToRoom (Some "ABC123"%string)) "gameStateUpdate"
           (Update (fst (applyMove (mkMove (5, 0) (4, 1) None) createGameState)))]).
Proof.
  destruct (selectable_moves_accepted createGameState (Some 1) 5 0
              [mkMove (5, 0) (4, 1) None] (mkMove (5, 0) (4, 1) None)
              socketA startedRooms
              (mkRoom ["a"; "b"]%string (Some createGameState) ∅))
    as (_ & _ & H).
  - vm_compute. reflexivity.
  - vm_compute. reflexivity.
  - now left.
  - vm_compute. reflexivity.
  - reflexivity.
  - reflexivity.
  - exact H.
Defined.

(** Every legal move can be made from the client.  On a board of the
    game without winner, each move object of getAllValidMoves for the
    player to move starts on a piece that renderGame makes selectable for
    that player, and is one of the moves getValidMovesForPiece offers
    once the piece is selected. *)
Theorem legal_moves_offered gs valid m :
  board_ok (board gs) -> truthy (winner gs) = false ->
  getAllValidMoves (board gs) (currentTurn gs) (mustJumpFrom gs) = Ok valid ->
  In m valid ->
  isSelectable gs (Some (currentTurn gs)) (fst (from m)) (snd (from m)) = Ok true /\
  exists ms,
    getValidMovesForPiece (board gs) (fst (from m)) (snd (from m)) (mustJumpFrom gs)
      = Ok ms /\ In m ms.
Proof.
  intros Hok Hwin Hvalid Hin.
  destruct (legal_generated _ _ _ _ _ Hvalid Hin)
    as (pc & ms & Hf & Hcell & Hpc & Hown & Hms & Hin' & _).
  split.
  2:{ exists ms. now rewrite getValidMovesForPiece_server. }
  unfold isSelectable, allMyMoves, isMyTurn.
  rewrite bool_decide_true by reflexivity. rewrite Hwin. simpl.
  rewrite getAllMovesForPlayer_server, Hvalid. simpl.
  rewrite (readCell_ok _ _ _ (cell_row _ _ _ _ Hcell)), Hcell. simpl.
  f_equal. apply andb_true_intro. split.
  - destruct (Hok (fst (from m)) (snd (from m))) as [Hin_grid _].
    destruct Hin_grid as (v & Hv & Hrange & _); [destruct (from m); exact Hf|].
    assert (v = pc) by congruence. subst v.
    unfold isMyPiece, truthy, is_num. rewrite <- Hown.
    destruct (playerOf_cases pc) as [Hp|Hp]; rewrite Hp.
    + apply playerOf_1 in Hp.
      rewrite (bool_decide_true (Some 1 = Some 1)) by reflexivity.
      destruct Hp as [-> | ->]; reflexivity.
    + assert (pc = 2 \/ pc = 4) as [-> | ->].
      { assert (~ (pc = 1 \/ pc = 3))
          by (rewrite <- playerOf_1; lia). lia. }
      all: rewrite (bool_decide_true (Some 2 = Some 2)) by reflexivity;
        reflexivity.
  - apply existsb_exists. exists m. split; [assumption|].
    rewrite !Z.eqb_refl. reflexivity.
Qed.

Lemma legal_moves_offered_witness :
  isSelectable createGameState (Some 1) 5 0 = Ok true.
Proof.
  destruct (legal_moves_offered createGameState
              [mkMove (5, 0) (4, 1) None; mkMove (5, 2) (4, 1) None;
               mkMove (5, 2) (4, 3) None; mkMove (5, 4) (4, 3) None;
               mkMove (5, 4) (4, 5) None; mkMove (5, 6) (4, 5) None;
               mkMove (5, 6) (4, 7) None]
              (mkMove (5, 0) (4, 1) None)) as [H _].
  - exact createInitialBoard_ok.
  - reflexivity.
  - vm_compute. reflexivity.
  - now left.
  - exact H.
Defined.

(* ===================================================================== *)
(*  Further properties of the handlers                                   *)
(* ===================================================================== *)

(** Acceptance by makeMove.  When the socket's room has a game without
    winner, the socket is the player to move and the submitted object is
    one of getAllValidMoves, the handler puts applyMove's result in the
    room, which differs from the state before, broadcasts it as
    gameStateUpdate, and leaves the players, the votes and every other
    room as they are. *)
Theorem makeMove_legal_applied socket move (rooms : gmap string Room) room gs valid :
  rooms !! keyOf (roomId socket) = Some room ->
  gameState room = Some gs ->
  truthy (winner gs) = false ->
  playerIndex socket = Some (currentTurn gs) ->
  getAllValidMoves (board gs) (currentTurn gs) (mustJumpFrom gs) = Ok valid ->
  In move valid ->
  exists gs',
    applyMove move gs = (gs', Ok tt) /\ gs' <> gs /\
    fst (makeMove socket move rooms) !! keyOf (roomId socket)
      = Some (mkRoom (players room) (Some gs') (rematchVotes room)) /\
    (forall k, k <> keyOf (roomId socket) ->
               fst (makeMove socket move rooms) !! k = rooms !! k) /\
    snd (makeMove socket move rooms)
      = [Emit (ToRoom (roomId socket)) "gameStateUpdate" (Update gs')].
Proof.
  intros Hroom Hgs Hwin Hidx Hvalid Hin.
  destruct (makeMove_member _ _ _ _ _ _ Hroom Hgs Hwin Hidx Hvalid Hin)
    as [Hok Hrun].
  exists (fst (applyMove move gs)).
  split; [rewrite <- Hok; destruct (applyMove move gs); reflexivity|].
  split.
  { intros Heq.
    destruct (legal_applyMove_complete _ _ _ Hvalid Hin)
      as (b3 & further & allMoves & Hw & _).
    destruct (legal_move_squares _ _ _ _ _ Hvalid Hin)
      as (_ & _ & _ & Hne & (pc & Hcell & Hpc & _) & _ & Hcapsq).
    destruct (writes_of_cells _ _ _ Hw Hne) as (_ & Horig & _).
    { intros cp Hc. destruct (Hcapsq cp Hc) as (_ & ? & ?). auto. }
    rewrite <- (applyMove_board _ _ _ Hw), Heq, Hcell in Horig.
    injection Horig as ->. contradiction. }
  rewrite Hrun. simpl.
  split; [apply lookup_insert_eq|]. split; [|reflexivity].
  intros k Hk. now apply lookup_insert_ne.
Qed.

Lemma makeMove_legal_applied_witness :
  exists gs',
    applyMove (mkMove (5, 0) (4, 1) None) createGameState = (gs', Ok tt) /\
    gs' <> createGameState /\
    snd (makeMove socketA (mkMove (5, 0) (4, 1) None) startedRooms)
      = [Emit (ToRoom (Some "ABC123"%string)) "gameStateUpdate" (Update gs')].
Proof.
  destruct (makeMove_legal_applied socketA (mkMove (5, 0) (4, 1) None)
              startedRooms (mkRoom ["a"; "b"]%string (Some createGameState) ∅)
              createGameState
              [mkMove (5, 0) (4, 1) None; mkMove (5, 2) (4, 1) None;
               mkMove (5, 2) (4, 3) None; mkMove (5, 4) (4, 3) None;
               mkMove (5, 4) (4, 5) None; mkMove (5, 6) (4, 5) None;
               mkMove (5, 6) (4, 7) None])
    as (gs' & Happ & Hne & _ & _ & Hout).
  - vm_compute. reflexivity.
  - reflexivity.
  - reflexivity.
  - reflexivity.
  - vm_compute. reflexivity.
  - now left.
  - exists gs'. split; [exact Happ|]. split; [exact Hne|exact Hout].
Defined.

(** What makeMove never does.  Whatever is submitted, by whatever socket,
    the handler neither opens nor removes a room and changes no room's
    players or votes; only the room the socket points to can change at
    all.  It answers with at most one message: a gameStateUpdate to the
    room, or invalidMove or error to the sending socket alone. *)
Theorem makeMove_touches_one_game socket move (rooms : gmap string Room) :
  dom (fst (makeMove socket move rooms)) = dom rooms /\
  (forall k room', fst (makeMove socket move rooms) !! k = Some room' ->
     exists room, rooms !! k = Some room /\
       players room' = players room /\ rematchVotes room' = rematchVotes room /\
       (k <> keyOf (roomId socket) -> room' = room)) /\
  (length (snd (makeMove socket move rooms)) <= 1)%nat /\
  (forall e, In e (snd (makeMove socket move rooms)) ->
     (em_target e = ToRoom (roomId socket) /\
      em_event e = "gameStateUpdate"%string) \/
     (em_target e = ToSocket (id socket) /\
      (em_event e = "invalidMove"%string \/ em_event e = "error"%string))).
Proof.
  unfold makeMove.
  assert (Hid : forall out,
    (length out <= 1)%nat ->
    (forall e, In e out ->
       (em_target e = ToRoom (roomId socket) /\
        em_event e = "gameStateUpdate"%string) \/
       (em_target e = ToSocket (id socket) /\
        (em_event e = "invalidMove"%string \/ em_event e = "error"%string))) ->
    dom (fst (rooms, out)) = dom rooms /\
    (forall k room', fst (rooms, out) !! k = Some room' ->
       exists room0, rooms !! k = Some room0 /\
         players room' = players room0 /\
         rematchVotes room' = rematchVotes room0 /\
         (k <> keyOf (roomId socket) -> room' = room0)) /\
    (length (snd (rooms, out)) <= 1)%nat /\
    (forall e, In e (snd (rooms, out)) ->
       (em_target e = ToRoom (roomId socket) /\
        em_event e = "gameStateUpdate"%string) \/
       (em_target e = ToSocket (id socket) /\
        (em_event e = "invalidMove"%string \/ em_event e = "error"%string)))).
  { intros out Hlen Hout. simpl.
    split; [reflexivity|]. split; [|split; assumption].
    intros k room' H. exists room'. auto. }
  destruct (rooms !! keyOf (roomId socket)) as [room|] eqn:Hroom;
    [|apply Hid; [simpl; lia|intros e []]].
  assert (Hsame : forall gs',
    dom (<[keyOf (roomId socket) :=
             mkRoom (players room) (Some gs') (rematchVotes room)]> rooms)
      = dom rooms /\
    forall k room',
      <[keyOf (roomId socket) :=
          mkRoom (players room) (Some gs') (rematchVotes room)]> rooms !! k
        = Some room' ->
      exists room0, rooms !! k = Some room0 /\
        players room' = players room0 /\
        rematchVotes room' = rematchVotes room0 /\
        (k <> keyOf (roomId socket) -> room' = room0)).
  { intros gs'. split.
    - rewrite dom_insert_L.
      assert (keyOf (roomId socket) ∈ dom rooms) by (apply elem_of_dom; eauto).
      apply set_eq. intros x. rewrite elem_of_union, elem_of_singleton.
      split; [intros [->|]; assumption|auto].
    - intros k room'. destruct (decide (k = keyOf (roomId socket))) as [->|Hk].
      + rewrite lookup_insert_eq. intros [= <-]. exists room.
        repeat split; auto. intros []; reflexivity.
      + rewrite lookup_insert_ne by congruence. intros H. exists room'.
        repeat split; auto. }

  destruct (gameState room) as [gs|]; [|apply Hid; [simpl; lia|intros e []]].
  destruct (truthy (winner gs)); [apply Hid; [simpl; lia|intros e []]|].
  destruct (playerIndex socket) as [idx|]; [|apply Hid; [simpl; lia|intros e []]].
  destruct (negb (currentTurn gs =? idx)); [apply Hid; [simpl; lia|intros e []]|].
  destruct (getAllValidMoves _ _ _) as [valid|e0].
  2:{ apply Hid; [simpl; lia|]. intros e [<-|[]]. right. simpl. auto. }
  destruct (negb (existsb _ valid)).
  { apply Hid; [simpl; lia|]. intros e [<-|[]]. right. simpl. auto. }
  destruct (Hsame (fst (applyMove move gs))) as [Hdom Hrooms].
  destruct (snd (applyMove move gs)) as [[]|e0]; simpl;
    (split; [exact Hdom|]); (split; [exact Hrooms|]); (split; [lia|]);
    intros e [<-|[]]; simpl; auto.
Qed.

(** Opening a game.  When socket [a] creates a room and another socket
    [b] joins it under the returned token, the room holds the players
    [a; b], a fresh game and no votes; [a] is player 1 and [b] player 2
    of that token; every other room is as before; a further join of the
    token by any connected socket is refused and changes nothing; and the
    first move is [a]'s: whatever [b] submits is ignored. *)
Theorem create_then_join s a b rnd sa sb :
  srv_sockets s !! a = Some sa -> id sa = a ->
  srv_sockets s !! b = Some sb -> id sb = b ->
  a <> b ->
  let tok := generateRoomId rnd in
  let s' := run s [CreateRoomMsg a rnd; JoinRoomMsg b (Some tok)] in
  srv_rooms s' !! tok = Some (mkRoom [a; b] (Some createGameState) ∅) /\
  srv_sockets s' !! a = Some (mkSocket a (Some tok) (Some 1)) /\
  srv_sockets s' !! b = Some (mkSocket b (Some tok) (Some 2)) /\
  (forall k, k <> tok -> srv_rooms s' !! k = srv_rooms s !! k) /\
  (forall c, is_Some (srv_sockets s' !! c) ->
             step s' (JoinRoomMsg c (Some tok)) = s') /\
  (forall move,
     makeMove (mkSocket b (Some tok) (Some 2)) move (srv_rooms s')
       = (srv_rooms s', [])).
Proof.
  intros Ha Hida Hb Hidb Hab tok s'.
  assert (Hs' : s' =
    mkServer (<[tok := mkRoom [a; b] (Some createGameState) ∅]>
                (<[tok := mkRoom [a] None ∅]> (srv_rooms s)))
             (<[b := mkSocket b (Some tok) (Some 2)]>
                (<[a := mkSocket a (Some tok) (Some 1)]> (srv_sockets s)))).
  { unfold s', run. cbn [foldl step]. rewrite Ha.
    unfold createRoom. fold tok. cbn [srv_rooms srv_sockets].
    rewrite lookup_insert_ne by congruence. rewrite Hb.
    unfold joinRoom, getRoom. cbn [keyOf]. rewrite lookup_insert_eq.
    cbn [players length Nat.leb rematchVotes app].
    rewrite Hida, Hidb. reflexivity. }
  rewrite Hs'. cbn [srv_rooms srv_sockets].
  split; [apply lookup_insert_eq|].
  split; [rewrite lookup_insert_ne by congruence; apply lookup_insert_eq|].
  split; [apply lookup_insert_eq|].
  split; [intros k Hk; now rewrite !lookup_insert_ne by congruence|].
  split.
  - intros c [sc Hc]. cbn [step srv_sockets srv_rooms]. rewrite Hc.
    unfold joinRoom, getRoom. cbn [keyOf]. rewrite lookup_insert_eq. reflexivity.
  - intros move. unfold makeMove. cbn [keyOf roomId].
    rewrite lookup_insert_eq. reflexivity.
Qed.

Lemma create_then_join_witness :
  let s := run initialServer [Connection "a"; Connection "b"] in
  let s' := run s [CreateRoomMsg "a" "0.abc123xyz";
                   JoinRoomMsg "b" (Some "ABC123"%string)] in
  srv_rooms s' !! "ABC123"%string
    = Some (mkRoom ["a"; "b"]%string (Some createGameState) ∅).
Proof.
  cbv zeta.
  destruct (create_then_join
              (run initialServer [Connection "a"; Connection "b"])
              "a"%string "b"%string "0.abc123xyz"%string
              (mkSocket "a" None None) (mkSocket "b" None None)) as [H _].
  - vm_compute. reflexivity.
  - reflexivity.
  - vm_compute. reflexivity.
  - reflexivity.
  - discriminate.
  - exact H.
Defined.

(* --------------------------------------------------------------------- *)
(*  Tokens and inherited names                                           *)
(* --------------------------------------------------------------------- *)

Lemma substring_length n m s :
  String.length (substring n m s) = Nat.min m (String.length s - n).
Proof.
  revert n m. induction s as [|c s IH]; intros n m.
  - destruct n, m; reflexivity.
  - destruct n as [|n].
    + destruct m as [|m]; [reflexivity|].
      simpl. rewrite IH. rewrite Nat.sub_0_r. reflexivity.
    + simpl. apply IH.
Qed.

Lemma toUpperCase_length s : String.length (toUpperCase s) = String.length s.
Proof. induction s as [|c s IH]; simpl; congruence. Qed.

Lemma toUpperChar_not_lower c :
  ~ (97 <= nat_of_ascii (toUpperChar c) <= 122)%nat.
Proof.
  unfold toUpperChar.
  destruct ((97 <=? nat_of_ascii c) && (nat_of_ascii c <=? 122))%nat eqn:E.
  - apply andb_prop in E as [E1 E2].
    apply Nat.leb_le in E1, E2.
    rewrite nat_ascii_embedding by lia. lia.
  - intros [H1 H2]. apply Nat.leb_le in H1, H2.
    rewrite H1, H2 in E. discriminate.
Qed.

Lemma toUpperChar_fixed c :
  ~ (97 <= nat_of_ascii c <= 122)%nat -> toUpperChar c = c.
Proof.
  intros H. unfold toUpperChar.
  destruct ((97 <=? nat_of_ascii c) && (nat_of_ascii c <=? 122))%nat eqn:E;
    [|reflexivity].
  apply andb_prop in E as [E1 E2]. apply Nat.leb_le in E1, E2. lia.
Qed.

Lemma toUpperCase_idempotent s : toUpperCase (toUpperCase s) = toUpperCase s.
Proof.
  induction s as [|c s IH]; simpl; [reflexivity|].
  rewrite IH, (toUpperChar_fixed _ (toUpperChar_not_lower c)). reflexivity.
Qed.

Lemma toUpperCase_chars s c :
  In c (list_ascii_of_string (toUpperCase s)) ->
  ~ (97 <= nat_of_ascii c <= 122)%nat.
Proof.
  induction s as [|c0 s IH]; simpl; [contradiction|].
  intros [<-|H]; [apply toUpperChar_not_lower|auto].
Qed.

Lemma inheritedName_In key :
  inheritedName key = true <-> In key objectPrototypeNames.
Proof.
  unfold inheritedName. rewrite existsb_exists. split.
  - intros (x & Hx & E). apply String.eqb_eq in E. now subst.
  - intros H. exists key. split; [exact H|apply String.eqb_refl].
Qed.

(** Every inherited name has a lower-case letter. *)
Lemma inheritedName_lower key :
  inheritedName key = true ->
  exists c, In c (list_ascii_of_string key) /\ (97 <= nat_of_ascii c <= 122)%nat.
Proof.
  intros H. apply inheritedName_In in H.
  unfold objectPrototypeNames in H. cbn [In] in H.
  repeat (destruct H as [<-|H];
          [first [ exists "o"%char; split; [cbn; tauto|vm_compute; lia]
                 | exists "e"%char; split; [cbn; tauto|vm_compute; lia] ]|]).
  contradiction.
Qed.

Lemma generateRoomId_not_inherited rnd :
  inheritedName (generateRoomId rnd) = false.
Proof.
  destruct (inheritedName (generateRoomId rnd)) eqn:E; [|reflexivity].
  apply inheritedName_lower in E as (c & Hin & Hc).
  exfalso. exact (toUpperCase_chars _ _ Hin Hc).
Qed.

(** joinRoom, case by case.  Without a room under the token, joinRoom
    throws "Room not found" when the token is not a name the registry
    object inherits, and a TypeError when it is; a token the server
    generated is never inherited.  A room with two players gives "Room is
    full".  Whatever it throws, nothing is written: the server state
    after the event is the state before.  For a room with fewer than two
    players it returns: the socket is appended to the players (filling
    slot 2 of a room that has its creator), the room gets a fresh game
    state without winner, every other room is as before, and the socket
    is player 2 of the room. *)
Theorem joinRoom_cases socket rid (rooms : gmap string Room) :
  (rooms !! keyOf rid = None -> inheritedName (keyOf rid) = false ->
     joinRoom socket rid rooms = Throw (Error "Room not found")) /\
  (rooms !! keyOf rid = None -> inheritedName (keyOf rid) = true ->
     joinRoom socket rid rooms = Throw TypeError) /\
  (forall rnd, rid = Some (generateRoomId rnd) -> rooms !! keyOf rid = None ->
     joinRoom socket rid rooms = Throw (Error "Room not found")) /\
  (forall room, rooms !! keyOf rid = Some room ->
     (2 <= length (players room))%nat ->
     joinRoom socket rid rooms = Throw (Error "Room is full")) /\
  (forall s e, srv_rooms s = rooms -> srv_sockets s !! id socket = Some socket ->
     joinRoom socket rid rooms = Throw e ->
     step s (JoinRoomMsg (id socket) rid) = s) /\
  (forall room, rooms !! keyOf rid = Some room ->
     (length (players room) < 2)%nat ->
     exists rooms' socket' room',
       joinRoom socket rid rooms = Ok (rooms', socket', room') /\
       rooms' !! keyOf rid = Some room' /\
       (forall k, k <> keyOf rid -> rooms' !! k = rooms !! k) /\
       players room' = players room ++ [id socket] /\
       (forall p1, players room = [p1] -> players room' = [p1; id socket]) /\
       gameState room' = Some createGameState /\
       winner createGameState = None /\
       rematchVotes room' = rematchVotes room /\
       socket' = mkSocket (id socket) rid (Some 2)).
Proof.
  unfold joinRoom, getRoom. split; [|split; [|split; [|split; [|split]]]].
  - intros -> ->. reflexivity.
  - intros -> ->. reflexivity.
  - intros rnd -> Hnone. cbn [keyOf] in *.
    rewrite Hnone, generateRoomId_not_inherited. reflexivity.
  - intros room -> Hfull.
    destruct (Nat.leb 2 _) eqn:E; [reflexivity|].
    apply Nat.leb_gt in E. lia.
  - intros s e Hs Hsock Hthrow. simpl. rewrite Hsock, Hs.
    unfold joinRoom, getRoom. now rewrite Hthrow.
  - intros room -> Hfree.
    destruct (Nat.leb 2 _) eqn:E; [apply Nat.leb_le in E; lia|].
    do 3 eexists. split; [reflexivity|].
    split; [apply lookup_insert_eq|].
    split; [intros k Hk; now apply lookup_insert_ne|].
    split; [reflexivity|].
    split; [intros p1 ->; reflexivity|].
    repeat split.
Qed.

Lemma joinRoom_cases_witness :
  joinRoom socketB (Some "NOROOM"%string) startedRooms
    = Throw (Error "Room not found") /\
  joinRoom socketB (Some "valueOf"%string) startedRooms = Throw TypeError /\
  joinRoom socketB (Some (generateRoomId "0.k3j9x2m"%string)) startedRooms
    = Throw (Error "Room not found") /\
  joinRoom (mkSocket "c" None None) (Some "ABC123"%string) startedRooms
    = Throw (Error "Room is full") /\
  exists rooms' socket' room',
    joinRoom (mkSocket "b" None None) (Some "ABC123"%string)
             {[ "ABC123"%string := mkRoom ["a"]%string None ∅ ]}
      = Ok (rooms', socket', room') /\
    players room' = ["a"; "b"]%string /\
    gameState room' = Some createGameState.
Proof.
  split; [|split; [|split; [|split]]].
  - apply (joinRoom_cases socketB (Some "NOROOM"%string) startedRooms).
    + vm_compute. reflexivity.
    + vm_compute. reflexivity.
  - apply (joinRoom_cases socketB (Some "valueOf"%string) startedRooms).
    + vm_compute. reflexivity.
    + vm_compute. reflexivity.
  - apply (joinRoom_cases socketB (Some (generateRoomId "0.k3j9x2m"%string))
             startedRooms) with (rnd := "0.k3j9x2m"%string).
    + reflexivity.
    + vm_compute. reflexivity.
  - apply (joinRoom_cases (mkSocket "c" None None) (Some "ABC123"%string)
             startedRooms) with (room := mkRoom ["a"; "b"]%string
                                                (Some createGameState) ∅).
    + apply lookup_singleton_eq.
    + simpl. lia.
  - destruct (joinRoom_cases (mkSocket "b" None None) (Some "ABC123"%string)
                {[ "ABC123"%string := mkRoom ["a"]%string None ∅ ]})
      as (_ & _ & _ & _ & _ & Hjoin).
    destruct (Hjoin (mkRoom ["a"]%string None ∅))
      as (rooms' & socket' & room' & Hrun & _ & _ & _ & Hp & Hg & _).
    + apply lookup_singleton_eq.
    + simpl. lia.
    + exists rooms', socket', room'. split; [exact Hrun|].
      split; [apply (Hp "a"%string); reflexivity|exact Hg].
Defined.



Lemma step_createRoom s sid socket rnd :
  srv_sockets s !! sid = Some socket ->
  step s (CreateRoomMsg sid rnd) =
    mkServer (<[generateRoomId rnd := mkRoom [id socket] None ∅]> (srv_rooms s))
             (<[sid := mkSocket (id socket) (Some (generateRoomId rnd)) (Some 1)]>
                (srv_sockets s)).
Proof. intros H. simpl. rewrite H. reflexivity. Qed.

Lemma step_disconnect s sid socket :
  srv_sockets s !! sid = Some socket ->
  step s (DisconnectMsg sid) =
    mkServer (fst (disconnect socket (srv_rooms s))) (delete sid (srv_sockets s)).
Proof. intros H. simpl. rewrite H. reflexivity. Qed.

(** Rooms a disconnect does not remove.  The handler looks only at the
    token the socket holds at that moment.  A socket that creates a
    second room under another token therefore leaves its first room in
    the registry when it disconnects, with the disconnected socket as its
    only player. *)
Theorem createRoom_twice_leaves_room s sid socket rnd1 rnd2 :
  srv_sockets s !! sid = Some socket -> id socket = sid ->
  generateRoomId rnd1 <> generateRoomId rnd2 ->
  let s' := run s [CreateRoomMsg sid rnd1; CreateRoomMsg sid rnd2;
                   DisconnectMsg sid] in
  srv_rooms s' !! generateRoomId rnd1 = Some (mkRoom [sid] None ∅) /\
  srv_sockets s' !! sid = None.
Proof.
  intros Hsock Hid Hne s'. unfold s', run. cbn [foldl].
  rewrite (step_createRoom _ _ _ _ Hsock).
  erewrite step_createRoom by (cbn [srv_sockets]; apply lookup_insert_eq).
  erewrite step_disconnect by (cbn [srv_sockets]; apply lookup_insert_eq).
  cbn [srv_rooms srv_sockets id]. unfold disconnect. cbn [roomId].
  split; [|apply lookup_delete_eq].
  destruct (negb _ && _); cbn [fst].
  - rewrite lookup_delete_ne by congruence.
    rewrite lookup_insert_ne by congruence.
    now rewrite lookup_insert_eq, Hid.
  - rewrite lookup_insert_ne by congruence.
    now rewrite lookup_insert_eq, Hid.
Qed.

Lemma createRoom_twice_leaves_room_witness :
  let s := run initialServer [Connection "a"] in
  let s' := run s [CreateRoomMsg "a" "0.abc123xyz"; CreateRoomMsg "a" "0.4fzyo82mvyr";
                   DisconnectMsg "a"] in
  srv_rooms s' !! "ABC123"%string = Some (mkRoom ["a"]%string None ∅) /\
  srv_sockets s' !! "a"%string = None.
Proof.
  cbv zeta.
  apply (createRoom_twice_leaves_room (run initialServer [Connection "a"])
           "a"%string (mkSocket "a" None None)
           "0.abc123xyz"%string "0.4fzyo82mvyr"%string).
  - vm_compute. reflexivity.
  - reflexivity.
  - vm_compute. discriminate.
Defined.

(** One participant cannot bring about a rematch.  A vote by a socket
    that is the only one to have voted so far, once or many times, leaves
    one vote and the game untouched, is announced as 1, and suspends
    nothing; and whenever processRematchVote does reset the game, some
    other socket had voted before. *)
Theorem processRematchVote_needs_two socket (rooms : gmap string Room) room :
  rooms !! keyOf (roomId socket) = Some room ->
  (rematchVotes room ⊆ {[id socket]} ->
     processRematchVote socket rooms =
       (<[keyOf (roomId socket) :=
            mkRoom (players room) (gameState room) {[id socket]}]> rooms,
        [Emit (ToRoom (roomId socket)) "rematchVoteUpdate" (Votes 1)],
        Ok None)) /\
  (forall k, snd (processRematchVote socket rooms) = Ok (Some k) ->
     exists other, other ∈ rematchVotes room /\ other <> id socket).
Proof.
  intros Hroom. split.
  - intros Hsub.
    assert (Hv : {[id socket]} ∪ rematchVotes room = ({[id socket]} : gset string)).
    { apply set_eq. intros x. rewrite elem_of_union, elem_of_singleton.
      split; [intros [H|H]; [assumption|]|auto].
      apply Hsub in H. now apply elem_of_singleton in H. }
    unfold processRematchVote. rewrite Hroom. unfold addVote.
    cbn [rematchVotes]. rewrite Hv, size_singleton. reflexivity.
  - intros k Hk.
    destruct (decide (set_Forall (fun x => x = id socket) (rematchVotes room)))
      as [Hall|Hnall].
    + exfalso. revert Hk. unfold processRematchVote. rewrite Hroom.
      unfold addVote. cbn [rematchVotes].
      assert (Hv : {[id socket]} ∪ rematchVotes room = ({[id socket]} : gset string)).
      { apply set_eq. intros x. rewrite elem_of_union, elem_of_singleton.
        split; [intros [H|H]; [assumption|exact (Hall x H)]|auto]. }
      rewrite Hv, size_singleton. discriminate.
    + apply not_set_Forall_Exists in Hnall as (other & Hin & Hnot);
        [|apply _].
      exists other. split; [assumption|exact Hnot].
Qed.

Lemma processRematchVote_needs_two_witness :
  processRematchVote socketA
    {[ "ABC123"%string :=
         mkRoom ["a"; "b"]%string (Some createGameState) {[ "a"%string ]} ]} =
    (<[ "ABC123"%string :=
          mkRoom ["a"; "b"]%string (Some createGameState) {[ "a"%string ]} ]>
       {[ "ABC123"%string :=
            mkRoom ["a"; "b"]%string (Some createGameState) {[ "a"%string ]} ]},
     [Emit (ToRoom (Some "ABC123"%string)) "rematchVoteUpdate" (Votes 1)],
     Ok None).
Proof.
  destruct (processRematchVote_needs_two socketA
              {[ "ABC123"%string :=
                   mkRoom ["a"; "b"]%string (Some createGameState) {[ "a"%string ]} ]}
              (mkRoom ["a"; "b"]%string (Some createGameState) {[ "a"%string ]}))
    as [H _].
  - apply lookup_singleton_eq.
  - apply H. simpl. reflexivity.
Defined.

(* --------------------------------------------------------------------- *)
(*  Room tokens                                                          *)
(* --------------------------------------------------------------------- *)

(** Room tokens.  generateRoomId returns the characters 3 to 8 of the
    random string, so at most six and fewer when that string is short
    (none when it has at most two characters); no character of a token is
    a lower-case letter, so the upper-casing the client applies to a
    typed token leaves a generated token as it is. *)
Theorem generateRoomId_shape rnd :
  String.length (generateRoomId rnd) = Nat.min 6 (String.length rnd - 2) /\
  (forall c, In c (list_ascii_of_string (generateRoomId rnd)) ->
             ~ (97 <= nat_of_ascii c <= 122)%nat) /\
  toUpperCase (generateRoomId rnd) = generateRoomId rnd /\
  (generateRoomId rnd = ""%string <-> (String.length rnd <= 2)%nat).
Proof.
  unfold generateRoomId.
  assert (Hlen : String.length (toUpperCase (substring 2 6 rnd))
                 = Nat.min 6 (String.length rnd - 2))
    by (rewrite toUpperCase_length; apply substring_length).
  split; [exact Hlen|].
  split; [intros c; apply toUpperCase_chars|].
  split; [apply toUpperCase_idempotent|].
  split.
  - intros H. rewrite H in Hlen. cbn [String.length] in Hlen. lia.
  - intros H. destruct (toUpperCase (substring 2 6 rnd)) as [|c s] eqn:E;
      [reflexivity|]. cbn [String.length] in Hlen. lia.
Qed.

(** The room under the empty token.  The disconnect handler does nothing
    for a socket without token or with the empty token.  So when the
    random string has at most two characters, createRoom opens the room
    under the empty token, and the disconnect of its creator leaves it in
    the registry. *)
Theorem empty_token_room_stays rnd socket (rooms : gmap string Room) :
  (String.length rnd <= 2)%nat ->
  let rooms1 := fst (fst (createRoom rnd socket rooms)) in
  let socket1 := snd (fst (createRoom rnd socket rooms)) in
  roomId socket1 = Some ""%string /\
  rooms1 !! ""%string = Some (mkRoom [id socket] None ∅) /\
  disconnect socket1 rooms1 = (rooms1, []) /\
  (forall other, roomId other = None -> disconnect other rooms = (rooms, [])).
Proof.
  intros Hlen rooms1 socket1.
  assert (Htok : generateRoomId rnd = ""%string).
  { unfold generateRoomId.
    pose proof (substring_length 2 6 rnd) as H.
    pose proof (toUpperCase_length (substring 2 6 rnd)) as H'.
    destruct (toUpperCase (substring 2 6 rnd)); [reflexivity|].
    cbn [String.length] in H'. lia. }
  unfold rooms1, socket1, createRoom. rewrite Htok. cbn [fst snd roomId].
  split; [reflexivity|]. split; [apply lookup_insert_eq|].
  split; [reflexivity|].
  intros other Ho. unfold disconnect. now rewrite Ho.
Qed.

Lemma empty_token_room_stays_witness :
  let rooms1 := fst (fst (createRoom "0" (mkSocket "a" None None) ∅)) in
  let socket1 := snd (fst (createRoom "0" (mkSocket "a" None None) ∅)) in
  disconnect socket1 rooms1 = (rooms1, []).
Proof.
  cbv zeta.
  destruct (empty_token_room_stays "0"%string (mkSocket "a" None None) ∅)
    as (_ & _ & H & _).
  - simpl. lia.
  - exact H.
Defined.

(* --------------------------------------------------------------------- *)
(*  Exceptions of the move generators                                    *)
(* --------------------------------------------------------------------- *)

Lemma foldM_throw {A B} (P : exn -> Prop) (f : A -> B -> res A) (l : list B) :
  (forall a x e, f a x = Throw e -> P e) ->
  forall acc e, foldM f acc l = Throw e -> P e.
Proof.
  intros Hf. induction l as [|x l IH]; intros acc e; simpl; [discriminate|].
  destruct (f acc x) as [a|e0] eqn:Hx; simpl.
  - apply IH.
  - intros [= <-]. eapply Hf; eauto.
Qed.

Lemma readCell_throw b r c e : readCell b r c = Throw e -> e = TypeError.
Proof. unfold readCell. destruct (b !! r); [discriminate|congruence]. Qed.

Lemma scanDirection_throw b row col mjf player acc d e :
  scanDirection b row col mjf player acc d = Throw e -> e = TypeError.
Proof.
  unfold scanDirection. destruct (_ || _ || _ || _); [discriminate|].
  destruct (readCell b (row + fst d) (col + snd d)) as [target|e0] eqn:Ht; simpl.
  2:{ intros [= <-]. eapply readCell_throw; eauto. }
  destruct (isEnemy player target).
  - destruct (_ && _ && _ && _); [|discriminate].
    destruct (readCell b (row + 2 * fst d) (col + 2 * snd d)) as [l|e0] eqn:Hl;
      simpl.
    + destruct (negb _); discriminate.
    + intros [= <-]. eapply readCell_throw; eauto.
  - destruct (_ && _); discriminate.
Qed.

Lemma getValidMoves_throw b row col mjf e :
  getValidMoves b row col mjf = Throw e -> e = TypeError.
Proof.
  unfold getValidMoves.
  destruct (readCell b row col) as [[pc|]|e0] eqn:Hp; simpl; try discriminate.
  2:{ intros [= <-]. eapply readCell_throw; eauto. }
  destruct (pc =? 0); [discriminate|].
  destruct (foldM _ _ _) as [acc|e0] eqn:Hf; simpl.
  - destruct mjf; [destruct (_ && _)|]; discriminate.
  - intros [= <-]. eapply (foldM_throw (fun e => e = TypeError)); [|exact Hf].
    intros a x e1. apply scanDirection_throw.
Qed.

Lemma collectCell_throw b player mjf r all c e :
  collectCell b player mjf r all c = Throw e -> e = TypeError.
Proof.
  unfold collectCell.
  destruct (readCell b r c) as [[pc|]|e0] eqn:Hp; simpl; try discriminate.
  2:{ intros [= <-]. eapply readCell_throw; eauto. }
  destruct (pc =? 0); [discriminate|]. destruct (negb _); [discriminate|].
  destruct (getValidMoves b r c mjf) as [ms|e0] eqn:Hms; simpl; [discriminate|].
  intros [= <-]. eapply getValidMoves_throw; eauto.
Qed.

(** When the move generators throw.  getAllValidMoves returns a list
    exactly when the board has its rows 0..7, and getValidMoves returns
    one for every cell of an existing row of such a board; the only
    exception either of them can throw is the TypeError of indexing a
    missing row; and getValidMoves returns the empty list for a cell that
    is empty or lies beside the columns of its row. *)
Theorem move_generators_exceptions b player mjf :
  (rows_ok b <-> exists valid, getAllValidMoves b player mjf = Ok valid) /\
  (forall e, getAllValidMoves b player mjf = Throw e -> e = TypeError) /\
  (forall row col,
     (b !! row = None -> getValidMoves b row col mjf = Throw TypeError) /\
     (forall e, getValidMoves b row col mjf = Throw e -> e = TypeError) /\
     (rows_ok b -> is_Some (b !! row) ->
        exists ms, getValidMoves b row col mjf = Ok ms) /\
     (is_Some (b !! row) -> truthy (cell b row col) = false ->
        getValidMoves b row col mjf = Ok [])).
Proof.
  split; [|split].
  - split; [apply getAllValidMoves_total|].
    intros [valid H]. eapply getAllValidMoves_rows; eauto.
  - intros e. unfold getAllValidMoves.
    destruct (collectAll b player mjf) as [all|e0] eqn:Hall; simpl; [discriminate|].
    intros [= <-]. unfold collectAll in Hall.
    eapply (foldM_throw (fun e => e = TypeError)); [|exact Hall].
    intros a r e1. apply (foldM_throw (fun e => e = TypeError)).
    intros a' c e2. apply collectCell_throw.
  - intros row col. split; [|split; [|split]].
    + intros Hnone. unfold getValidMoves, readCell. now rewrite Hnone.
    + intros e. apply getValidMoves_throw.
    + apply getValidMoves_total.
    + intros Hrow Hempty. unfold getValidMoves.
      rewrite (readCell_ok _ _ _ Hrow). simpl.
      destruct (cell b row col) as [pc|]; [|reflexivity].
      simpl in Hempty. apply negb_false_iff in Hempty. now rewrite Hempty.
Qed.

(* --------------------------------------------------------------------- *)
(*  Winning by taking the last piece                                     *)
(* --------------------------------------------------------------------- *)

Lemma countCells_zero p b r c :
  countCells p b = 0%nat -> in_grid (r, c) -> p (cell b r c) = false.
Proof.
  unfold countCells. intros Hz Hg.
  destruct (p (cell b r c)) eqn:E; [|reflexivity].
  assert (Hin : In (r, c) (List.filter (fun rc => p (cell b (fst rc) (snd rc)))
                             (list_prod (seqZ 0 8) (seqZ 0 8)))).
  { apply filter_In. split; [now apply grid_In|exact E]. }
  destruct (List.filter _ _); [contradiction|discriminate].
Qed.

(** A player without pieces on a board of the game has no legal move. *)
Lemma no_pieces_no_moves b player mjf valid :
  board_ok b -> getAllValidMoves b player mjf = Ok valid ->
  (player = 1 -> pieces1 b = 0%nat) -> (player = 2 -> pieces2 b = 0%nat) ->
  valid = [].
Proof.
  intros Hok Hrun H1 H2. destruct valid as [|m rest]; [reflexivity|exfalso].
  destruct (legal_generated _ _ _ _ m Hrun (or_introl eq_refl))
    as (pc & ms & Hf & Hcell & Hpc & Hown & _).
  destruct (Hok (fst (from m)) (snd (from m))) as [Hin _].
  destruct Hin as (v & Hv & Hrange & _); [destruct (from m); exact Hf|].
  assert (v = pc) by congruence. subst v.
  assert (Hg : in_grid (fst (from m), snd (from m)))
    by (destruct (from m); exact Hf).
  destruct (playerOf_cases pc) as [Hp|Hp]; rewrite Hown in Hp.
  - pose proof (countCells_zero _ _ _ _ (H1 Hp) Hg) as Hz.
    cbn beta in Hz. rewrite Hcell in Hz.
    rewrite <- Hown in Hp. apply playerOf_1 in Hp.
    destruct Hp as [-> | ->]; discriminate.
  - pose proof (countCells_zero _ _ _ _ (H2 Hp) Hg) as Hz.
    cbn beta in Hz. rewrite Hcell in Hz.
    assert (pc = 2 \/ pc = 4) as [-> | ->]; [|discriminate..].
    assert (~ (pc = 1 \/ pc = 3)) by (rewrite <- playerOf_1; lia). lia.
Qed.

(** Taking the last piece wins.  On a board of the game, a legal move
    after which the other player has no piece left on the grid ends the
    game: the turn passes, mustJumpFrom is cleared and winner is the
    player who moved. *)
Theorem last_piece_taken_wins gs valid move :
  board_ok (board gs) ->
  getAllValidMoves (board gs) (currentTurn gs) (mustJumpFrom gs) = Ok valid ->
  In move valid ->
  let gs' := fst (applyMove move gs) in
  (currentTurn gs = 1 -> pieces2 (board gs') = 0%nat) ->
  (currentTurn gs = 2 -> pieces1 (board gs') = 0%nat) ->
  snd (applyMove move gs) = Ok tt /\
  winner gs' = Some (currentTurn gs) /\
  currentTurn gs' = otherPlayer (currentTurn gs) /\
  mustJumpFrom gs' = None.
Proof.
  intros Hok Hrun Hin gs' Hc1 Hc2.
  assert (Hturn : currentTurn gs = 1 \/ currentTurn gs = 2).
  { destruct (legal_move_squares _ _ _ _ _ Hrun Hin)
      as (_ & _ & _ & _ & (pc0 & _ & _ & Hown) & _).
    rewrite <- Hown. apply playerOf_cases. }
  destruct (legal_applyMove_complete _ _ _ Hrun Hin)
    as (b3 & further & allMoves & Hw & Hb3 & Hfur & Hall & Happ).
  cbv zeta in Hall, Happ.
  pose proof (legal_move_board_ok _ _ _ _ _ _ Hrun Hin Hw Hok) as Hok3.
  unfold gs' in *. rewrite Happ in *. cbn [fst snd board] in *.
  set (piece := cell (board gs) (fst (from move)) (snd (from move))) in *.
  destruct (continues move piece further) eqn:Hgo.
  - exfalso. unfold continues in Hgo.
    apply andb_prop in Hgo as [Hgo Hmore]. apply andb_prop in Hgo as [_ Hsame].
    apply bool_decide_eq_true in Hsame.
    apply filter_capture_exists in Hmore as (m & Hm & Hcap).
    destruct (getValidMoves_generated _ _ _ _ _ _ Hfur Hm) as (pc & Hcell & Hpc & Hgen).
    destruct (legal_move_squares _ _ _ _ _ Hrun Hin)
      as (_ & _ & _ & Hne & (pc0 & Hpcell & _ & Hown) & _ & Hcapsq).
    destruct (writes_of_cells _ _ _ Hw Hne) as (Hdest & _).
    { intros cp Hc. destruct (Hcapsq cp Hc) as (_ & ? & ?). auto. }
    fold piece in Hdest. rewrite Hsame in Hdest. unfold piece in Hdest.
    rewrite Hpcell in Hdest.
    assert (pc = pc0) by congruence. subst pc0.
    inversion Hgen as [d Hd Hn Hj He Hrow Hfree Hmv | d Hd Hn Hrow Hfree Hmjf Hmv];
      [|subst m; discriminate Hcap].
    apply isEnemy_other in He as (v & Hv & Hwho).
    rewrite Hown in Hwho.
    destruct Hwho as [(Hp & Hv')|(Hp & Hv')].
    + pose proof (countCells_zero _ _ _ _ (Hc1 Hp) Hn) as Hz.
      cbn beta in Hz. rewrite Hv in Hz.
      destruct Hv' as [-> | ->]; discriminate Hz.
    + pose proof (countCells_zero _ _ _ _ (Hc2 Hp) Hn) as Hz.
      cbn beta in Hz. rewrite Hv in Hz.
      destruct Hv' as [-> | ->]; discriminate Hz.
  - split; [reflexivity|]. cbn [winner currentTurn mustJumpFrom].
    assert (allMoves = []).
    { apply (no_pieces_no_moves b3 _ _ _ Hok3 Hall); intros Ho;
        destruct Hturn as [Ht|Ht]; rewrite Ht in Ho;
        try (exfalso; discriminate Ho).
      - exact (Hc2 Ht).
      - exact (Hc1 Ht). }
    subst allMoves. cbn [length Z.of_nat Z.eqb].
    split; [|split; reflexivity].
    unfold otherPlayer. destruct Hturn as [-> | ->]; reflexivity.
Qed.

Lemma board_okb_ok b : board_okb b = true -> board_ok b.
Proof.
  unfold board_okb. intros H.
  apply andb_prop in H as [H Hcells]. apply andb_prop in H as [Hdom Hrows].
  apply bool_decide_eq_true in Hdom, Hrows.
  rewrite forallb_forall in Hcells.
  intros r c. split.
  - intros Hg. specialize (Hcells (r, c) (proj2 (grid_In r c) Hg)).
    unfold cell_okb in Hcells. simpl in Hcells.
    destruct (cell b r c) as [v|]; [|discriminate].
    exists v. split; [reflexivity|].
    repeat (apply andb_prop in Hcells as [Hcells ?]).
    destruct (v =? 0) eqn:E0, (r =? 0) eqn:R0, (r =? 7) eqn:R7,
             (v =? 1) eqn:E1, (v =? 2) eqn:E2; simpl in *;
      try discriminate; repeat split; try lia.
  - intros Hout. unfold cell.
    destruct (b !! r) as [cells|] eqn:Hr; [|reflexivity].
    simpl. apply not_elem_of_dom.
    assert (Hin : r ∈ dom b) by (apply elem_of_dom; eauto).
    rewrite Hdom, elem_of_list_to_set, list_elem_of_In, in_seqZ_0_8 in Hin.
    rewrite (Hrows r cells Hr), elem_of_list_to_set, list_elem_of_In, in_seqZ_0_8.
    unfold in_grid in Hout. simpl in Hout. lia.
Qed.

Lemma last_piece_taken_wins_witness :
  let move := mkMove (5, 2) (3, 4) (Some (4, 3)) in
  winner (fst (applyMove move (inPlay lastMan))) = Some 1 /\
  currentTurn (fst (applyMove move (inPlay lastMan))) = 2.
Proof.
  cbv zeta.
  destruct (last_piece_taken_wins (inPlay lastMan)
              [mkMove (5, 2) (3, 4) (Some (4, 3))]
              (mkMove (5, 2) (3, 4) (Some (4, 3)))) as (_ & Hw & Ht & _).
  - apply board_okb_ok. vm_compute. reflexivity.
  - vm_compute. reflexivity.
  - now left.
  - intros _. vm_compute. reflexivity.
  - intros H. discriminate H.
  - split; [exact Hw|exact Ht].
Defined.

Lemma client_moves_are_server_moves_witness :
  getValidMovesForPiece multiJump 5 2 None
    = Ok [mkMove (5, 2) (3, 4) (Some (4, 3))] /\
  getAllMovesForPlayer multiJump 1 None
    = Ok [mkMove (5, 2) (3, 4) (Some (4, 3))].
Proof.
  destruct (client_moves_are_server_moves multiJump 5 2 1 None) as [H1 H2].
  rewrite H1, H2. split; vm_compute; reflexivity.
Defined.

Lemma makeMove_touches_one_game_witness :
  dom (fst (makeMove socketA (mkMove (5, 0) (4, 1) (Some (8, 0))) startedRooms))
    = dom startedRooms.
Proof.
  destruct (makeMove_touches_one_game socketA (mkMove (5, 0) (4, 1) (Some (8, 0)))
              startedRooms) as [H _].
  exact H.
Defined.

Lemma move_generators_exceptions_witness :
  getValidMoves (delete 4 createInitialBoard) 4 1 None = Throw TypeError /\
  exists valid, getAllValidMoves multiJump 2 None = Ok valid.
Proof.
  destruct (move_generators_exceptions (delete 4 createInitialBoard) 1 None)
    as (_ & _ & Hcell).
  destruct (Hcell 4 1) as (Hthrow & _).
  split; [apply Hthrow; apply lookup_delete_eq|].
  destruct (move_generators_exceptions multiJump 2 None) as ([Hret _] & _).
  exact (Hret multiJump_rows_ok).
Defined.

Lemma generateRoomId_shape_witness :
  String.length (generateRoomId "0.4fzyo82mvyr") = 6%nat /\
  String.length (generateRoomId "0.i") = 1%nat.
Proof.
  split.
  - destruct (generateRoomId_shape "0.4fzyo82mvyr") as [H _]. exact H.
  - destruct (generateRoomId_shape "0.i") as [H _]. exact H.
Defined.

(** A creator who joins its own token.  joinRoom does not compare the
    joining socket with the creator: the room then holds the same socket
    twice and starts a game, the socket becomes player 2, and since the
    first move belongs to player 1 every move it submits is ignored. *)
Theorem creator_joins_own_room s a sa rnd :
  srv_sockets s !! a = Some sa -> id sa = a ->
  let tok := generateRoomId rnd in
  let s' := run s [CreateRoomMsg a rnd; JoinRoomMsg a (Some tok)] in
  srv_rooms s' !! tok = Some (mkRoom [a; a] (Some createGameState) ∅) /\
  srv_sockets s' !! a = Some (mkSocket a (Some tok) (Some 2)) /\
  (forall move,
     makeMove (mkSocket a (Some tok) (Some 2)) move (srv_rooms s')
       = (srv_rooms s', [])).
Proof.
  intros Ha Hida tok s'.
  assert (Hs' : s' =
    mkServer (<[tok := mkRoom [a; a] (Some createGameState) ∅]>
                (<[tok := mkRoom [a] None ∅]> (srv_rooms s)))
             (<[a := mkSocket a (Some tok) (Some 2)]>
                (<[a := mkSocket a (Some tok) (Some 1)]> (srv_sockets s)))).
  { unfold s', run. cbn [foldl]. rewrite (step_createRoom _ _ _ _ Ha).
    fold tok. cbn [step srv_sockets srv_rooms]. rewrite lookup_insert_eq.
    unfold joinRoom, getRoom. cbn [keyOf]. rewrite lookup_insert_eq.
    cbn [players length Nat.leb rematchVotes app id].
    rewrite Hida. reflexivity. }
  rewrite Hs'. cbn [srv_rooms srv_sockets].
  split; [apply lookup_insert_eq|]. split; [apply lookup_insert_eq|].
  intros move. unfold makeMove. cbn [keyOf roomId].
  rewrite lookup_insert_eq. reflexivity.
Qed.

Lemma creator_joins_own_room_witness :
  let s' := run (run initialServer [Connection "a"])
                [CreateRoomMsg "a" "0.abc123xyz";
                 JoinRoomMsg "a" (Some "ABC123"%string)] in
  srv_rooms s' !! "ABC123"%string
    = Some (mkRoom ["a"; "a"]%string (Some createGameState) ∅).
Proof.
  cbv zeta.
  destruct (creator_joins_own_room (run initialServer [Connection "a"])
              "a"%string (mkSocket "a" None None) "0.abc123xyz"%string)
    as [H _].
  - vm_compute. reflexivity.
  - reflexivity.
  - exact H.
Defined.
